(** * ANODE: weight computation and configuration upsert

    A shallow embedding of the two scripts of the repository,

      - [parse_jobhistory_and_compute_weights.py]: the record extractor
        ([parse_history_xml]) and the weight computer ([compute_ndt_and_Ci]);
      - [anode_agent_apply.py]: the property upserter
        ([update_hdfs_site_property]) and the deployment sequence ([main]),

    followed by the properties the specification states about them. *)

From Stdlib Require Import String Ascii.

From Stdlib Require Import ZArith List Bool Lia Permutation.

From Stdlib Require Import QArith Qcanon Field.

From Stdlib Require Import Floats.

Import ListNotations.

Set Warnings "-inexact-float,-register-all".

Open Scope string_scope.

Open Scope list_scope.

Open Scope Z_scope.

(** * Part I: the programs *)

(** ** Python preliminaries *)

(** The exceptions the two scripts can meet. *)
Inductive exn : Type :=
| OverflowError        (* int too large to convert to float *)
| ZeroDivisionError    (* float division by zero *)
| TypeError            (* int(None) *)
| ValueError           (* int(s) for a string that is no integer literal *)
| ParseError           (* ET.parse / ET.fromstring on malformed XML *)
| OSError              (* a file or an executable that cannot be opened *)
| CalledProcessError.  (* subprocess.check_call: non-zero exit status *)

Inductive result (A : Type) : Type :=
| Ok (a : A)
| Raise (e : exn).

Arguments Ok {A} a.

Arguments Raise {A} e.

Definition bind {A B : Type} (m : result A) (k : A -> result B) : result B :=
  match m with
  | Ok a => k a
  | Raise e => Raise e
  end.

Declare Scope py_scope.

Delimit Scope py_scope with py.

Notation "x <- m ;; k" := (bind m (fun x => k))
  (at level 61, m at next level, right associativity) : py_scope.

Notation "' p <- m ;; k" := (bind m (fun x => let 'p := x in k))
  (at level 61, p pattern, m at next level, right associativity) : py_scope.

Open Scope py_scope.

(** A [for] loop whose body may raise: the first exception ends the loop. *)
Fixpoint for_each {A S : Type} (body : S -> A -> result S) (l : list A) (s : S)
  : result S :=
  match l with
  | [] => Ok s
  | a :: l' => s' <- body s a ;; for_each body l' s'
  end.

(** A Python [dict] with [str] keys.  A dict iterates in insertion order and
    setting an existing key keeps the key's position, so a dict is a list of
    bindings with pairwise distinct keys. *)
Definition dict (V : Type) : Type := list (string * V).

Fixpoint dict_get {V : Type} (d : dict V) (k : string) : option V :=
  match d with
  | [] => None
  | (k', v) :: d' => if String.eqb k' k then Some v else dict_get d' k
  end.

Fixpoint dict_set {V : Type} (d : dict V) (k : string) (v : V) : dict V :=
  match d with
  | [] => [(k, v)]
  | (k', v') :: d' =>
      if String.eqb k' k then (k', v) :: d' else (k', v') :: dict_set d' k v
  end.

(** [d[k]] on a [defaultdict] whose factory returns [dflt]. *)
Definition dict_get_default {V : Type} (d : dict V) (k : string) (dflt : V) : V :=
  match dict_get d k with
  | Some v => v
  | None => dflt
  end.

Definition keys {V : Type} (d : dict V) : list string := map fst d.

Definition values {V : Type} (d : dict V) : list V := map snd d.

(** ** The weight computer ([parse_jobhistory_and_compute_weights.py]) *)

(** The float operations [compute_ndt_and_Ci] uses.  The function is written
    once over this interface and read at three instances: [binary64] and
    [binary64_py312], the floats Python computes with (they differ in the
    built-in [sum] only), and [exact], the same formulas over the rationals,
    with no rounding and no overflow. *)
Class Arith (F : Type) : Type := {
  lit0 : F;                          (* 0.0 *)
  lit1 : F;                          (* 1.0 *)
  lit1000 : F;                       (* 1000.0 *)
  float_of_int : Z -> result F;      (* float(n), and an int operand of / *)
  fadd : F -> F -> F;                (* x + y *)
  fsum : list F -> F;                (* sum(l), for a list of floats *)
  fdiv : F -> F -> result F;         (* x / y *)
  fgt0 : F -> bool                   (* x > 0 *)
}.

(** An execution record [(node, start, finish, hdfs_bytes)]. *)
Record entry : Type := Entry {
  node : string;
  start : Z;
  finish : Z;
  hdfs_bytes : Z
}.

Section WeightComputer.

Context {F : Type} {AF : Arith F}.

(** Line 66: the guard [hdfs_bytes <= 0 or finish <= start]. *)
Definition skipped (e : entry) : bool :=
  (hdfs_bytes e <=? 0) || (finish e <=? start e).

(** Lines 68-69: [texec = (finish - start) / 1000.0] and
    [ndt = texec / float(hdfs_bytes)]. *)
Definition ndt_of (e : entry) : result F :=
  d <- float_of_int (finish e - start e) ;;
  texec <- fdiv d lit1000 ;;
  b <- float_of_int (hdfs_bytes e) ;;
  fdiv texec b.

(** Lines 65-71: the body of the first loop, on [(ndt_sum, ndt_count)]. *)
Definition accumulate_step (st : dict F * dict Z) (e : entry)
  : result (dict F * dict Z) :=
  let '(ndt_sum, ndt_count) := st in
  if skipped e then Ok st
  else
    ndt <- ndt_of e ;;
    Ok (dict_set ndt_sum (node e) (fadd (dict_get_default ndt_sum (node e) lit0) ndt),
        dict_set ndt_count (node e) (dict_get_default ndt_count (node e) 0 + 1)).

Definition accumulate (entries : list entry) : result (dict F * dict Z) :=
  for_each accumulate_step entries ([], []).

(** Lines 72-74: [node_avg_ndt[node] = ndt_sum[node] / ndt_count[node]]. *)
Definition average_step (ndt_sum : dict F) (ndt_count : dict Z)
    (node_avg_ndt : dict F) (n : string) : result (dict F) :=
  c <- float_of_int (dict_get_default ndt_count n 0) ;;
  a <- fdiv (dict_get_default ndt_sum n lit0) c ;;
  Ok (dict_set node_avg_ndt n a).

Definition averages (ndt_sum : dict F) (ndt_count : dict Z) : result (dict F) :=
  for_each (average_step ndt_sum ndt_count) (keys ndt_sum) [].

(** Lines 76-81: [Ci = 1 / avg(NDT)], [0.0] when the average is not
    positive. *)
Definition capacity_of (avg_ndt : F) : result F :=
  if fgt0 avg_ndt then fdiv lit1 avg_ndt else Ok lit0.

Definition capacity_step (node_C : dict F) (item : string * F)
  : result (dict F) :=
  c <- capacity_of (snd item) ;;
  Ok (dict_set node_C (fst item) c).

Definition capacities (node_avg_ndt : dict F) : result (dict F) :=
  for_each capacity_step node_avg_ndt [].

(** Lines 83-91: the total capacity [sum(node_C.values())] and the
    weights. *)
Definition normalize_step (totalC : F) (node_P : dict F) (item : string * F)
  : result (dict F) :=
  p <- fdiv (snd item) totalC ;;
  Ok (dict_set node_P (fst item) p).

Definition fallback_step (node_C : dict F) (node_P : dict F) (n : string)
  : result (dict F) :=
  let len := Z.of_nat (List.length node_C) in
  p <- (if len =? 0 then Ok lit0
        else (l <- float_of_int len ;; fdiv lit1 l)) ;;
  Ok (dict_set node_P n p).

Definition weights (node_C : dict F) : result (dict F) :=
  let totalC := fsum (values node_C) in
  if fgt0 totalC then for_each (normalize_step totalC) node_C []
  else for_each (fallback_step node_C) (keys node_C) [].

(** Lines 61-92. *)
Definition compute_ndt_and_Ci (entries : list entry)
  : result (dict F * dict F) :=
  '(ndt_sum, ndt_count) <- accumulate entries ;;
  node_avg_ndt <- averages ndt_sum ndt_count ;;
  node_C <- capacities node_avg_ndt ;;
  node_P <- weights node_C ;;
  Ok (node_C, node_P).

(** The averages, for the statements that mention them. *)
Definition node_avg_ndt_of (entries : list entry) : result (dict F) :=
  '(ndt_sum, ndt_count) <- accumulate entries ;;
  averages ndt_sum ndt_count.

End WeightComputer.

(** *** The floats of Python: IEEE 754 binary64 *)

(** [float(n)] rounds to the nearest double, ties to even, and raises
    [OverflowError] when the result would not be finite. *)
Definition b64_of_int (z : Z) : result float :=
  match binary_normalize prec emax z 0 false with
  | S754_infinity _ => Raise OverflowError
  | sf => Ok (SF2Prim sf)
  end.

(** [x / y] raises [ZeroDivisionError] when [y == 0.0]. *)
Definition b64_div (x y : float) : result float :=
  if PrimFloat.eqb y 0%float then Raise ZeroDivisionError
  else Ok (PrimFloat.div x y).

(** [sum(l)] starts from the int [0] and adds from left to right. *)
Definition b64_sum (l : list float) : float :=
  fold_left PrimFloat.add l 0%float.

(** From CPython 3.12 on, [sum] keeps a compensation term for a list of
    floats (Neumaier's summation): after the first addition [0 + x], each
    further item updates the running sum [f] and the compensation [c], and
    [c] is added at the end when it is finite and not zero. *)
Definition neumaier_step (st : float * float) (x : float) : float * float :=
  let '(f, c) := st in
  let t := PrimFloat.add f x in
  let c' :=
    if PrimFloat.leb (PrimFloat.abs x) (PrimFloat.abs f)
    then PrimFloat.add c (PrimFloat.add (PrimFloat.sub f t) x)
    else PrimFloat.add c (PrimFloat.add (PrimFloat.sub x t) f) in
  (t, c').

Definition is_finite (x : float) : bool :=
  PrimFloat.ltb (PrimFloat.abs x) infinity.

Definition b64_sum_compensated (l : list float) : float :=
  match l with
  | [] => 0%float
  | x :: l' =>
      let '(f, c) := fold_left neumaier_step l' (PrimFloat.add 0%float x, 0%float) in
      if negb (PrimFloat.eqb c 0%float) && is_finite c
      then PrimFloat.add f c else f
  end.

#[export] Instance binary64 : Arith float := {|
  lit0 := 0%float;
  lit1 := 1%float;
  lit1000 := 1000%float;
  float_of_int := b64_of_int;
  fadd := PrimFloat.add;
  fsum := b64_sum;
  fdiv := b64_div;
  fgt0 := fun x => PrimFloat.ltb 0%float x
|}.

(** The floats of CPython 3.12 and later: the same, with the compensated
    [sum]. *)
Definition binary64_py312 : Arith float := {|
  lit0 := 0%float;
  lit1 := 1%float;
  lit1000 := 1000%float;
  float_of_int := b64_of_int;
  fadd := PrimFloat.add;
  fsum := b64_sum_compensated;
  fdiv := b64_div;
  fgt0 := fun x => PrimFloat.ltb 0%float x
|}.

(** *** The same formulas in exact arithmetic *)

Definition Qc_of_Z (z : Z) : Qc := Q2Qc (inject_Z z).

Definition Qc_pos (x : Qc) : bool :=
  match (0 ?= x)%Qc with Lt => true | _ => false end.

Definition Qc_div (x y : Qc) : result Qc :=
  if Qc_eq_dec y 0%Qc then Raise ZeroDivisionError else Ok (x / y)%Qc.

(** [sum(l)] over the rationals: any order of summation gives the same. *)
Definition Qc_sum (l : list Qc) : Qc := fold_left Qcplus l 0%Qc.

#[export] Instance exact : Arith Qc := {|
  lit0 := 0%Qc;
  lit1 := 1%Qc;
  lit1000 := Qc_of_Z 1000;
  float_of_int := fun z => Ok (Qc_of_Z z);
  fadd := Qcplus;
  fsum := Qc_sum;
  fdiv := Qc_div;
  fgt0 := Qc_pos
|}.

(** ** XML documents ([xml.etree.ElementTree]) *)

(** An [Element]: tag, attributes, text, tail and children. *)
Inductive element : Type :=
| Element (tag : string) (attrib : dict string) (text : option string)
          (tail : option string) (children : list element).

Definition tag_of (e : element) : string :=
  match e with Element t _ _ _ _ => t end.

Definition attrib_of (e : element) : dict string :=
  match e with Element _ a _ _ _ => a end.

Definition text_of (e : element) : option string :=
  match e with Element _ _ x _ _ => x end.

Definition children_of (e : element) : list element :=
  match e with Element _ _ _ _ cs => cs end.

Definition has_tag (t : string) (e : element) : bool := String.eqb (tag_of e) t.

(** [e.find(t)], [e.findall(t)] and [e.findtext(t)] for a tag [t]: among the
    children of [e]. *)
Definition find (t : string) (e : element) : option element :=
  List.find (has_tag t) (children_of e).

Definition findall (t : string) (e : element) : list element :=
  filter (has_tag t) (children_of e).

Definition findtext (t : string) (e : element) : option string :=
  match find t e with
  | Some c => Some (match text_of c with Some s => s | None => "" end)
  | None => None
  end.

(** [e.findall(".//t")]: the descendants of [e] with tag [t], in document
    order. *)
Fixpoint descendants (e : element) : list element :=
  match e with
  | Element _ _ _ _ cs => flat_map (fun c => c :: descendants c) cs
  end.

Definition findall_deep (t : string) (e : element) : list element :=
  filter (has_tag t) (descendants e).

(** [e.get(a)]: the attribute [a]. *)
Definition get (a : string) (e : element) : option string :=
  dict_get (attrib_of e) a.

Definition with_children (e : element) (cs : list element) : element :=
  match e with Element t a x tl _ => Element t a x tl cs end.

Definition with_text (e : element) (s : string) : element :=
  match e with Element t a _ tl cs => Element t a (Some s) tl cs end.

(** [c = ET.SubElement(parent, t); c.text = s]: a new last child. *)
Definition new_element (t : string) (s : option string) : element :=
  Element t [] s None [].

Definition append_child (parent child : element) : element :=
  with_children parent (children_of parent ++ [child]).

(** *** Writing a document and reading it back

    [tree.write] writes the text and the tail of an element only when they
    are not empty, and writes their characters as they are, markup characters
    escaped.  [ET.parse] then reports a text or a tail that is absent as
    [None] and reads the line ends "\r\n" and "\r" as "\n".  It rejects a
    character that XML does not allow, and text after the root element unless
    it is white space, which it drops.  An attribute value is written with
    its line breaks as character references and is read back as it was.  Tags
    and attribute names are taken to be XML names, as they are in every
    document the two scripts read or build; strings are ASCII text. *)
Fixpoint all_chars (p : ascii -> bool) (s : string) : bool :=
  match s with
  | EmptyString => true
  | String c s' => p c && all_chars p s'
  end.

(** The characters of XML 1.0: tab, line feed, carriage return, and every
    character from the space on. *)
Definition xml_char (c : ascii) : bool :=
  let n := nat_of_ascii c in
  ((n =? 9) || (n =? 10) || (n =? 13) || (32 <=? n))%nat.

Definition xml_text (s : string) : bool := all_chars xml_char s.

Definition xml_space (c : ascii) : bool :=
  let n := nat_of_ascii c in
  ((n =? 9) || (n =? 10) || (n =? 13) || (n =? 32))%nat.

(** The line ends of a written text, as the parser reports them. *)
Fixpoint line_ends (s : string) : string :=
  match s with
  | EmptyString => EmptyString
  | String c s' =>
      if Ascii.eqb c "013"%char then
        match s' with
        | String c' s'' =>
            if Ascii.eqb c' "010"%char then String "010"%char (line_ends s'')
            else String "010"%char (line_ends s')
        | EmptyString => String "010"%char (line_ends s')
        end
      else String c (line_ends s')
  end.

(** A text or a tail, written and read back. *)
Definition read_text (x : option string) : option string :=
  match x with
  | Some s => if String.eqb s "" then None else Some (line_ends s)
  | None => None
  end.

(** A document, written and read back. *)
Fixpoint as_read (e : element) : element :=
  match e with
  | Element t a x tl cs => Element t a (read_text x) (read_text tl) (map as_read cs)
  end.

Definition opt_text (p : string -> bool) (x : option string) : bool :=
  match x with
  | Some s => p s
  | None => true
  end.

(** Every text, tail and attribute value consists of XML characters. *)
Fixpoint well_formed (e : element) : bool :=
  match e with
  | Element _ a x tl cs =>
      forallb (fun kv => xml_text (snd kv)) a
      && opt_text xml_text x && opt_text xml_text tl
      && forallb well_formed cs
  end.

Definition tail_of (e : element) : option string :=
  match e with Element _ _ _ tl _ => tl end.

Definition without_tail (e : element) : element :=
  match e with Element t a x _ cs => Element t a x None cs end.

(** ** The property upserter ([anode_agent_apply.py]) *)

(** Lines 25-26: [name = prop.find('name')] and the test
    [name is not None and name.text == prop_name]. *)
Definition name_matches (prop_name : string) (prop : element) : bool :=
  match find "name" prop with
  | Some name =>
      match text_of name with
      | Some s => String.eqb s prop_name
      | None => false
      end
  | None => false
  end.

(** [val.text = s] on the first child with tag [t]. *)
Fixpoint set_first_text (t s : string) (cs : list element) : list element :=
  match cs with
  | [] => []
  | c :: cs' =>
      if has_tag t c then with_text c s :: cs' else c :: set_first_text t s cs'
  end.

(** Lines 27-30: the value child is found or created, and its text set. *)
Definition set_value (prop_value : string) (prop : element) : element :=
  match find "value" prop with
  | Some _ => with_children prop (set_first_text "value" prop_value (children_of prop))
  | None => append_child prop (new_element "value" (Some prop_value))
  end.

(** Lines 24-32: the loop over [root.findall('property')]; [None] when it
    ends without a match. *)
Fixpoint upsert_loop (prop_name prop_value : string) (cs : list element)
  : option (list element) :=
  match cs with
  | [] => None
  | c :: cs' =>
      if has_tag "property" c && name_matches prop_name c
      then Some (set_value prop_value c :: cs')
      else option_map (cons c) (upsert_loop prop_name prop_value cs')
  end.

(** Lines 34-36: the property that is added. *)
Definition new_property (prop_name prop_value : string) : element :=
  Element "property" [] None None
    [new_element "name" (Some prop_name); new_element "value" (Some prop_value)].

(** Lines 23-36 of [update_hdfs_site_property], on the parsed document. *)
Definition upsert (root : element) (prop_name prop_value : string) : element :=
  match upsert_loop prop_name prop_value (children_of root) with
  | Some cs => with_children root cs
  | None => append_child root (new_property prop_name prop_value)
  end.

(** ** The record extractor ([parse_jobhistory_and_compute_weights.py]) *)

(** [a or b] for two values that are a [str] or [None]: [a] when it is a
    non-empty string, else [b]. *)
Definition truthy (a : option string) : bool :=
  match a with
  | Some s => negb (String.eqb s "")
  | None => false
  end.

Definition or_str (a b : option string) : option string :=
  if truthy a then a else b.

Section Extractor.

(** [int(s)] for a string: its value, or [None] for [ValueError].  The
    extractor is stated for any such function that rejects the empty string,
    as [int] does. *)
Variable int_of_str : string -> option Z.

(** [ET.fromstring]: the root element, or [ParseError]. *)
Variable fromstring : string -> result element.

(** [int(x)] for [x] a [str] or [None]. *)
Definition int_text (x : option string) : result Z :=
  match x with
  | None => Raise TypeError
  | Some s =>
      match int_of_str s with
      | Some z => Ok z
      | None => Raise ValueError
      end
  end.

(** [int(x or 0)]. *)
Definition int_text_or_0 (x : option string) : result Z :=
  if truthy x then int_text x else Ok 0.

(** [x or 'unknown']. *)
Definition text_or_unknown (x : option string) : string :=
  match or_str x (Some "unknown") with
  | Some s => s
  | None => "unknown"
  end.

(** Lines 41-45: the body of the [try] for a [taskAttempt] element. *)
Definition task_attempt_record (t : element) : result entry :=
  start <- int_text (or_str (findtext "startTime" t) (findtext "start" t)) ;;
  finish <- int_text (or_str (findtext "finishTime" t) (findtext "finish" t)) ;;
  hdfs_bytes <- int_text_or_0
                  (or_str (findtext "hdfsBytesRead" t) (findtext "hdfs_bytes_read" t)) ;;
  let tracker :=
    text_or_unknown (or_str (findtext "trackerName" t) (findtext "node" t)) in
  Ok (Entry tracker start finish hdfs_bytes).

(** Lines 52-56: the body of the [try] for a [map] element. *)
Definition map_record (m : element) : result entry :=
  start <- int_text_or_0 (findtext "startTime" m) ;;
  finish <- int_text_or_0 (findtext "finishTime" m) ;;
  hdfs_bytes <- int_text_or_0 (findtext "hdfsBytesRead" m) ;;
  let tracker := text_or_unknown (findtext "trackerName" m) in
  Ok (Entry tracker start finish hdfs_bytes).

(** [try: ...; results.append(r) except Exception: continue]. *)
Definition try_append (body : element -> result entry)
    (results : list entry) (t : element) : list entry :=
  match body t with
  | Ok r => results ++ [r]
  | Raise _ => results
  end.

(** Lines 37-59, on the parsed document. *)
Definition extract_records (root : element) : list entry :=
  let results :=
    fold_left (try_append task_attempt_record) (findall_deep "taskAttempt" root) [] in
  match results with
  | [] => fold_left (try_append map_record) (findall_deep "map" root) results
  | _ :: _ => results
  end.

(** Lines 32-59. *)
Definition parse_history_xml (content : string) : result (list entry) :=
  root <- fromstring content ;;
  Ok (extract_records root).

(** *** The extraction as the specification words it

    The fallback shape read "with the same field aliases" as the primary one,
    its numbers defaulting to 0. *)
Definition map_record_spec (m : element) : result entry :=
  start <- int_text_or_0 (or_str (findtext "startTime" m) (findtext "start" m)) ;;
  finish <- int_text_or_0 (or_str (findtext "finishTime" m) (findtext "finish" m)) ;;
  hdfs_bytes <- int_text_or_0
                  (or_str (findtext "hdfsBytesRead" m) (findtext "hdfs_bytes_read" m)) ;;
  let tracker :=
    text_or_unknown (or_str (findtext "trackerName" m) (findtext "node" m)) in
  Ok (Entry tracker start finish hdfs_bytes).

Definition extract_records_spec (root : element) : list entry :=
  let results :=
    fold_left (try_append task_attempt_record) (findall_deep "taskAttempt" root) [] in
  match results with
  | [] => fold_left (try_append map_record_spec) (findall_deep "map" root) results
  | _ :: _ => results
  end.

End Extractor.

(** [int(s)] on ASCII text: surrounding whitespace, an optional sign, and
    decimal digits that single underscores may group. *)
Definition is_space (c : ascii) : bool :=
  let n := nat_of_ascii c in
  ((9 <=? n) && (n <=? 13) || (28 <=? n) && (n <=? 32))%nat.

Definition digit_of (c : ascii) : option Z :=
  let n := Z.of_nat (nat_of_ascii c) in
  if (48 <=? n) && (n <=? 57) then Some (n - 48) else None.

Fixpoint lstrip (s : string) : string :=
  match s with
  | String c s' => if is_space c then lstrip s' else s
  | EmptyString => s
  end.

Fixpoint rstrip (s : string) : string :=
  match s with
  | String c s' =>
      match rstrip s' with
      | EmptyString => if is_space c then EmptyString else String c EmptyString
      | r => String c r
      end
  | EmptyString => s
  end.

Fixpoint digits (acc : Z) (after_digit : bool) (s : string) : option Z :=
  match s with
  | EmptyString => if after_digit then Some acc else None
  | String c s' =>
      match digit_of c with
      | Some d => digits (10 * acc + d) true s'
      | None =>
          if Ascii.eqb c "_"%char && after_digit then digits acc false s'
          else None
      end
  end.

Definition int_of_ascii (s : string) : option Z :=
  match rstrip (lstrip s) with
  | String "+"%char r => digits 0 false r
  | String "-"%char r => option_map Z.opp (digits 0 false r)
  | r => digits 0 false r
  end.

(** ** The deployment sequence ([anode_agent_apply.py]) *)

(** A local file is modelled by what [ET.parse] finds in it: the document
    whose character data it holds, or a text that is no XML document at
    all.  The document of a file may still hold a character that XML does
    not allow, or text after its root; [ET.parse] rejects such a file. *)
Inductive file : Type :=
| XmlFile (root : element)
| NotXml.

Inductive event : Type :=
| Ran (cmd : list string)                       (* subprocess.check_call(cmd) *)
| Wrote (path : string)                         (* tree.write(path) *)
| Printed (msg : string) (err : option exn).    (* print(msg) / print(msg, e) *)

(** The world the script runs in: the local files, the paths that cannot be
    written, the outcome of each command ([None]: exit status 0), and what
    the script has done so far. *)
Record world : Type := World {
  fs : dict file;
  read_only : list string;
  exit_of : list string -> option exn;
  log : list event
}.

Definition logged (w : world) (evs : list event) : world :=
  World (fs w) (read_only w) (exit_of w) (log w ++ evs).

(** A step of the script: it returns or raises, and leaves a world. *)
Definition io (A : Type) : Type := world -> result A * world.

Definition io_bind {A B : Type} (m : io A) (k : A -> io B) : io B :=
  fun w =>
    match m w with
    | (Ok a, w') => k a w'
    | (Raise e, w') => (Raise e, w')
    end.

(** [try: body except CalledProcessError as e: handler(e)]. *)
Definition try_except_CalledProcessError {A : Type}
    (body : io A) (handler : exn -> io A) : io A :=
  fun w =>
    match body w with
    | (Raise CalledProcessError, w') => handler CalledProcessError w'
    | r => r
    end.

Declare Scope io_scope.

Delimit Scope io_scope with io.

Notation "x <- m ;; k" := (io_bind m (fun x => k))
  (at level 61, m at next level, right associativity) : io_scope.

Notation "m ;; k" := (io_bind m (fun _ => k))
  (at level 61, right associativity) : io_scope.

Definition check_call (cmd : list string) : io unit :=
  fun w =>
    (match exit_of w cmd with Some e => Raise e | None => Ok tt end,
     logged w [Ran cmd]).

(** [ET.parse(path).getroot()]. *)
Definition ET_parse (path : string) : io element :=
  fun w =>
    (match dict_get (fs w) path with
     | Some (XmlFile root) =>
         if well_formed root && opt_text (all_chars xml_space) (tail_of root)
         then Ok (without_tail root)
         else Raise ParseError
     | Some NotXml => Raise ParseError
     | None => Raise OSError
     end, w).

(** [tree.write(path, encoding='utf-8', xml_declaration=True)]: afterwards
    the file holds the document as it will be read back. *)
Definition tree_write (path : string) (root : element) : io unit :=
  fun w =>
    if existsb (String.eqb path) (read_only w) then (Raise OSError, w)
    else (Ok tt,
          World (dict_set (fs w) path (XmlFile (as_read root))) (read_only w)
                (exit_of w) (log w ++ [Wrote path])).

Definition print (msg : string) (err : option exn) : io unit :=
  fun w => (Ok tt, logged w [Printed msg err]).

(** Lines 16-18. *)
Definition put_cmd (local hdfs_path : string) : list string :=
  ["hdfs"; "dfs"; "-put"; "-f"; local; hdfs_path].

Definition hdfs_put (local hdfs_path : string) : io unit :=
  check_call (put_cmd local hdfs_path).

(** Lines 20-37: both branches end in [tree.write]. *)
Definition update_hdfs_site_property (hdfs_site_path prop_name prop_value : string)
  : io unit :=
  (root <- ET_parse hdfs_site_path ;;
   tree_write hdfs_site_path (upsert root prop_name prop_value))%io.

(** Lines 39-42. *)
Definition reconfig_cmd : list string := ["hdfs"; "dfsadmin"; "-reconfig"].

Definition run_reconfig : io unit := check_call reconfig_cmd.

(** Lines 61-68: the [name:weight] pairs of the weight file, joined by
    commas. *)
Definition pair_of (n : element) : list string :=
  if truthy (get "name" n) && truthy (get "weight" n)
  then match get "name" n, get "weight" n with
       | Some name, Some weight => [String.append name (String.append ":" weight)]
       | _, _ => []
       end
  else [].

Definition inline_val (root : element) : string :=
  String.concat "," (flat_map pair_of (findall "node" root)).

Record arguments : Type := Args {
  weights_path : string;    (* --weights *)
  hdfs_dest : string;       (* --hdfs-dest *)
  hdfs_site : string        (* --hdfs-site *)
}.

Definition reconfig_failed_msg : string :=
  "Reconfig failed; you may need to restart NameNode. Error:".

(** Lines 51-76. *)
Definition main (args : arguments) : io unit :=
  (hdfs_put (weights_path args) (hdfs_dest args) ;;
   update_hdfs_site_property (hdfs_site args) "dfs.anode.weights.file" (hdfs_dest args) ;;
   root <- ET_parse (weights_path args) ;;
   update_hdfs_site_property (hdfs_site args) "dfs.datanode.data.dir.weight"
                             (inline_val root) ;;
   try_except_CalledProcessError
     (run_reconfig ;; print "Reconfig triggered." None)
     (fun e => print reconfig_failed_msg (Some e)))%io.

(** * Part II: the notions the statements use *)

(** [mapM f l]: the values [f] returns along [l], or the first exception. *)
Fixpoint mapM {A B : Type} (f : A -> result B) (l : list A) : result (list B) :=
  match l with
  | [] => Ok []
  | a :: l' => b <- f a ;; bs <- mapM f l' ;; Ok (b :: bs)
  end.

(** ** The weight computer *)

(** The records that count for node [n]: not skipped, and of that node. *)
Definition counted (n : string) (e : entry) : bool :=
  negb (skipped e) && String.eqb (node e) n.

Definition samples (n : string) (entries : list entry) : list entry :=
  filter (counted n) entries.

Section WeightNotions.
Context {F : Type} {AF : Arith F}.

(** The later loops each bind every key once. *)
Definition average_of (ndt_sum : dict F) (ndt_count : dict Z) (n : string)
  : result F :=
  c <- float_of_int (dict_get_default ndt_count n 0) ;;
  fdiv (dict_get_default ndt_sum n lit0) c.

Definition fallback_weight (node_C : dict F) : result F :=
  let len := Z.of_nat (length node_C) in
  if len =? 0 then Ok lit0 else (l <- float_of_int len ;; fdiv lit1 l).

(** [avg] is the average ndt of node [n]: the sum, in the order of the
    list, of the ndt of the records that count for [n], divided by their
    number. *)
Definition node_average (entries : list entry) (n : string) (avg : F) : Prop :=
  exists xs cnt,
    mapM ndt_of (samples n entries) = Ok xs /\
    float_of_int (Z.of_nat (length xs)) = Ok cnt /\
    fdiv (fold_left fadd xs lit0) cnt = Ok avg.

Definition node_capacity (entries : list entry) (n : string) (c : F) : Prop :=
  exists avg, node_average entries n avg /\ capacity_of avg = Ok c.

Definition weights_explained (C P : dict F) : Prop :=
  let totalC := fsum (values C) in
  if fgt0 totalC
  then forall n c, dict_get C n = Some c ->
         exists p, fdiv c totalC = Ok p /\ dict_get P n = Some p
  else forall n, In n (keys C) ->
         exists p, fallback_weight C = Ok p /\ dict_get P n = Some p.

End WeightNotions.


Section ExactNotions.
Local Open Scope Qc_scope.







End ExactNotions.


(** Equality of evaluated dicts of rationals: binding by binding, each
    rational by its canonical fraction. *)
Ltac Qc_dict_eq :=
  repeat first
    [ match goal with
      | |- @eq Qc _ _ => apply Qc_is_canon; vm_compute; reflexivity
      end
    | progress f_equal ].

(** ** The property upserter *)

(** The properties of a document with a given name, and the value of a
    property. *)
Definition is_named (k : string) (c : element) : bool :=
  has_tag "property" c && name_matches k c.

Definition properties_named (k : string) (doc : element) : list element :=
  filter (is_named k) (children_of doc).

Definition other_content (k : string) (doc : element) : list element :=
  filter (fun c => negb (is_named k c)) (children_of doc).

Definition value_of (prop : element) : option string :=
  match find "value" prop with
  | Some val => text_of val
  | None => None
  end.

(** A string that a write and a read leave as it is, inside any document:
    not empty, of XML characters, without line break. *)
Definition plain_char (c : ascii) : bool :=
  let n := nat_of_ascii c in ((n =? 9) || (32 <=? n))%nat.

Definition plain (s : string) : bool :=
  negb (String.eqb s "") && all_chars plain_char s.

(** Two calls of [update_hdfs_site_property] for the same name, one after
    the other. *)
Definition update_twice (path k v1 v2 : string) : io unit :=
  (update_hdfs_site_property path k v1 ;;
   update_hdfs_site_property path k v2)%io.

(** A world with one configuration file, which can be written. *)
Definition site_path : string := "/etc/hadoop/conf/hdfs-site.xml".

Definition site_world (doc : element) : world :=
  World [(site_path, XmlFile doc)] [] (fun _ => None) [].


(** The world after [tree.write(path)] of [root]. *)
Definition written (w : world) (path : string) (root : element) : world :=
  World (dict_set (fs w) path (XmlFile (as_read root))) (read_only w) (exit_of w)
        (log w ++ [Wrote path]).

(** ** The record extractor *)

(** The first non-empty text of a list of candidates. *)
Fixpoint first_nonempty (l : list (option string)) : option string :=
  match l with
  | [] => None
  | a :: l' => if truthy a then a else first_nonempty l'
  end.

(** The records of the elements that can be read, in order. *)
Definition readable (body : element -> result entry) (l : list element)
  : list entry :=
  flat_map (fun t => match body t with Ok r => [r] | Raise _ => [] end) l.

(** ** The deployment sequence *)

(** The steps of [main], for the statements about them. *)
Definition publish_cmd (args : arguments) : list string :=
  put_cmd (weights_path args) (hdfs_dest args).



(** ** Inputs of the examples *)

(** The scenario of the specification (section 8). *)
Definition scenario : list entry :=
  [Entry "n1" 1000 2000 1000; Entry "n2" 1000 3000 1000].

(** Two valid records of one node, of ndt 0.001 and 0.003 seconds per byte:
    the node's average ndt is 0.002 and its capacity 500, not the sum
    1000 + 333.3 of the capacities of the two records. *)
Definition two_samples : list entry :=
  [Entry "n" 0 1000 1000; Entry "n" 0 3000 1000].



Definition site_one : element :=
  Element "configuration" [] None None [new_property "dfs.replication" "3"].

(** A document that already holds two properties named [k]: the loop returns
    at the first one, and the second is still there after two upserts. *)
Definition site_dup : element :=
  Element "configuration" [] None None
    [new_property "k" "a"; new_property "k" "b"].

Definition leaf (t s : string) : element := new_element t (Some s).


(** A history whose only task is a [map] element that uses the alias names
    [start], [finish], [hdfs_bytes_read] and [node]: the code reads none of
    them in a [map] element and returns the defaults, where the extraction
    "with the same field aliases" would return the record itself. *)
Definition aliased_map_history : element :=
  Element "job" [] None None
    [Element "map" [] None None
       [leaf "start" "5"; leaf "finish" "9"; leaf "hdfs_bytes_read" "7";
        leaf "node" "dn1"]].

(** A history with three [taskAttempt] elements: the first with the primary
    names, the second with a start time that is no integer, the third with
    the alias names.  The records are those of the scenario. *)
Definition mixed_history : element :=
  Element "job" [] None None
    [Element "taskAttempt" [] None None
       [leaf "startTime" "1000"; leaf "finishTime" "2000";
        leaf "hdfsBytesRead" "1000"; leaf "trackerName" "n1"];
     Element "taskAttempt" [] None None
       [leaf "startTime" "soon"; leaf "finishTime" "2000"];
     Element "taskAttempt" [] None None
       [leaf "start" "1000"; leaf "finish" "3000";
        leaf "hdfs_bytes_read" "1000"; leaf "node" "n2"];
     Element "map" [] None None [leaf "startTime" "1"; leaf "finishTime" "2"]].

(** A run in which everything succeeds but the reconfiguration command. *)
Definition demo_weights : element :=
  Element "anodeWeights" [("workload", "WordCount")] None None
    [Element "node" [("name", "n1"); ("weight", "0.666667"); ("capacity", "1000.0")]
             None None [];
     Element "node" [("name", "n2"); ("weight", "0.333333"); ("capacity", "500.0")]
             None None []].

Definition demo_args : arguments :=
  Args "/tmp/WordCount.xml" "/user/hadoop/anode/weights/WordCount.xml"
       "/etc/hadoop/conf/hdfs-site.xml".

Definition demo_world : world :=
  World [("/etc/hadoop/conf/hdfs-site.xml", XmlFile site_one);
         ("/tmp/WordCount.xml", XmlFile demo_weights)]
        []
        (fun cmd => match cmd with
                    | [_; "dfsadmin"; _] => Some CalledProcessError
                    | _ => None
                    end)
        [].

(** The same run when the reconfiguration command cannot be started at
    all: [check_call] then raises [OSError], not [CalledProcessError]. *)
Definition lost_world : world :=
  World (fs demo_world) []
        (fun cmd => match cmd with
                    | [_; "dfsadmin"; _] => Some OSError
                    | _ => None
                    end)
        [].

(** ** Further notions for the weight computer *)

(** The distinct elements of a list, in the order of their first
    occurrence. *)
Fixpoint first_occurrences (l : list string) : list string :=
  match l with
  | [] => []
  | x :: l' => x :: filter (fun y => negb (String.eqb x y)) (first_occurrences l')
  end.

(** The nodes of the records that are not skipped, in the order in which
    they first appear. *)
Definition observed_nodes (entries : list entry) : list string :=
  first_occurrences (map node (filter (fun e => negb (skipped e)) entries)).

(** ** Further notions for the property upserter *)

(** The value of the first property named [k], as the upserter would find
    it. *)
Definition property_value (k : string) (doc : element) : option string :=
  match properties_named k doc with
  | p :: _ => value_of p
  | [] => None
  end.

Definition attrib_tail_of (e : element) : dict string * option string * option string :=
  match e with Element _ a x tl _ => (a, x, tl) end.

(** A task without a byte count. *)
Definition task_without_bytes : element :=
  Element "taskAttempt" [] None None
    [leaf "startTime" "1000"; leaf "finishTime" "2000"; leaf "trackerName" "n1"].

(** ** The weight document writer ([parse_jobhistory_and_compute_weights.py]) *)

Section Writer.

Context {F : Type} {AF : Arith F}.

(** [round(x, 6)] and [str(x)] for a float. *)
Variable round6 : F -> F.
Variable str : F -> string.

(** Line 97: the [node] element of one item of [node_P]. *)
Definition node_element (node_C : dict F) (item : string * F) : element :=
  Element "node"
    [("name", fst item);
     ("weight", str (round6 (snd item)));
     ("capacity", str (dict_get_default node_C (fst item) lit0))]
    None None [].

(** Lines 95-97: the root and the loop over [node_P.items()]. *)
Definition weights_tree (workload : string) (node_C node_P : dict F) : element :=
  fold_left (fun root item => append_child root (node_element node_C item))
            node_P
            (Element "anodeWeights" [("workload", workload)] None None []).

(** Lines 94-99. *)
Definition write_weights_xml (outpath workload : string) (node_C node_P : dict F)
  : io unit :=
  tree_write outpath (weights_tree workload node_C node_P).

(** The [name:weight] pair the agent builds for an item of [node_P]. *)
Definition pair_string (item : string * F) : string :=
  String.append (fst item) (String.append ":" (str (round6 (snd item)))).

Definition pair_kept (item : string * F) : bool :=
  negb (String.eqb (fst item) "") && negb (String.eqb (str (round6 (snd item))) "").

End Writer.

(** ** Listing the history files ([parse_jobhistory_and_compute_weights.py]) *)

(** Python strings are modelled as ASCII text.  [str.splitlines] breaks at
    "\n", "\r", "\r\n", "\v", "\f" and the separators 0x1c-0x1e; [str.split]
    with no argument and [str.strip] treat the characters of [is_space] as
    whitespace. *)
Definition is_linebreak (c : ascii) : bool :=
  let n := nat_of_ascii c in
  ((10 <=? n) && (n <=? 13) || (28 <=? n) && (n <=? 30))%nat.

(** The pieces of a string between line boundaries. *)
Fixpoint line_pieces (s : string) : list string :=
  match s with
  | EmptyString => [EmptyString]
  | String c s' =>
      if is_linebreak c then
        match s' with
        | String c' s'' =>
            if Ascii.eqb c "013"%char && Ascii.eqb c' "010"%char
            then EmptyString :: line_pieces s''
            else EmptyString :: line_pieces s'
        | EmptyString => EmptyString :: line_pieces s'
        end
      else
        match line_pieces s' with
        | l :: ls => String c l :: ls
        | [] => [String c EmptyString]
        end
  end.

(** [s.splitlines()]: a line boundary at the end opens no further line. *)
Definition splitlines (s : string) : list string :=
  match rev (line_pieces s) with
  | EmptyString :: r => rev r
  | _ => line_pieces s
  end.

(** The pieces of a string between whitespace characters. *)
Fixpoint field_pieces (s : string) : list string :=
  match s with
  | EmptyString => [EmptyString]
  | String c s' =>
      if is_space c then EmptyString :: field_pieces s'
      else
        match field_pieces s' with
        | f :: fs => String c f :: fs
        | [] => [String c EmptyString]
        end
  end.

(** [s.split()]: the non-empty pieces. *)
Definition py_split (s : string) : list string :=
  filter (fun f => negb (String.eqb f "")) (field_pieces s).

(** [s.strip()]. *)
Definition strip (s : string) : string := rstrip (lstrip s).

(** Lines 21-26 of [hdfs_ls]: the last field of every line of at least eight
    fields. *)
Definition ls_line (line : string) : list string :=
  let parts := py_split (strip line) in
  if (8 <=? length parts)%nat then [last parts ""] else [].

Definition ls_files (out : string) : list string :=
  flat_map ls_line (splitlines out).

(** [subprocess.check_output(cmd, universal_newlines=True)]: the text the
    command prints, or its exception. *)
Definition check_output (stdout_of : list string -> result string)
    (cmd : list string) : io string :=
  fun w => (stdout_of cmd, logged w [Ran cmd]).

Definition io_ret {A : Type} (a : A) : io A := fun w => (Ok a, w).

(** Lines 18-26. *)
Definition ls_cmd (path : string) : list string := ["hdfs"; "dfs"; "-ls"; path].

Definition hdfs_ls (stdout_of : list string -> result string) (path : string)
  : io (list string) :=
  (out <- check_output stdout_of (ls_cmd path) ;; io_ret (ls_files out))%io.

(** Lines 28-30. *)
Definition cat_cmd (path : string) : list string := ["hdfs"; "dfs"; "-cat"; path].

Definition hdfs_cat (stdout_of : list string -> result string) (path : string)
  : io string :=
  check_output stdout_of (cat_cmd path).

(** A listing line given by its cells: each field with the padding before
    it. *)
Definition is_blank (c : ascii) : bool := is_space c && negb (is_linebreak c).

Fixpoint render_row (row : list (string * string)) : string :=
  match row with
  | [] => EmptyString
  | (pad, f) :: row' => String.append pad (String.append f (render_row row'))
  end.

Definition good_cell (cell : string * string) : bool :=
  all_chars is_blank (fst cell) && negb (String.eqb (snd cell) "")
  && all_chars (fun c => negb (is_space c)) (snd cell).

Definition good_row (row : list (string * string)) : bool :=
  forallb good_cell row
  && forallb (fun cell => negb (String.eqb (fst cell) "")) (tl row).

Definition render_listing (rows : list (list (string * string))) : string :=
  String.concat "" (map (fun row => String.append (render_row row) (String "010" "")) rows).

(** A listing as [hdfs dfs -ls] prints it. *)
Definition demo_listing : list (list (string * string)) :=
  [[("", "Found"); (" ", "2"); (" ", "items")];
   [("", "-rw-r--r--"); ("   ", "3"); (" ", "hadoop"); (" ", "supergroup");
    ("       ", "1234"); (" ", "2020-01-01"); (" ", "12:00");
    (" ", "/user/hadoop/jobhistory/job_1_WordCount.xml")];
   [("", "drwxr-xr-x"); ("   ", "-"); (" ", "hadoop"); (" ", "supergroup");
    ("          ", "0"); (" ", "2020-01-02"); (" ", "08:30");
    (" ", "/user/hadoop/jobhistory/done")]].

(** ** The weight computation run ([main] of
    [parse_jobhistory_and_compute_weights.py]) *)

(** [s.lower()] and [sub in s], on ASCII text. *)
Definition lower_char (c : ascii) : ascii :=
  let n := nat_of_ascii c in
  if ((65 <=? n) && (n <=? 90))%nat then ascii_of_nat (n + 32) else c.

Fixpoint lower (s : string) : string :=
  match s with
  | EmptyString => EmptyString
  | String c s' => String (lower_char c) (lower s')
  end.

Fixpoint contains (sub s : string) : bool :=
  String.prefix sub s
  || match s with
     | String _ s' => contains sub s'
     | EmptyString => false
     end.

(** Line 121: [content.strip().startswith('<')]. *)
Definition looks_like_xml (content : string) : bool :=
  String.prefix "<" (strip content).

Definition io_lift {A : Type} (r : result A) : io A := fun w => (r, w).

(** A [for] loop of steps of the script. *)
Fixpoint io_for_each {A S : Type} (body : S -> A -> io S) (l : list A) (s : S)
  : io S :=
  match l with
  | [] => io_ret s
  | a :: l' => (s' <- body s a ;; io_for_each body l' s')%io
  end.

Record parser_arguments : Type := ParserArgs {
  hdfs_path : string;   (* --hdfs-path *)
  workload : string;    (* --workload *)
  out : string          (* --out *)
}.

Section ParserMain.

Context {F : Type} {AF : Arith F}.
Variable round6 : F -> F.
Variable str : F -> string.
Variable int_of_str : string -> option Z.
Variable fromstring : string -> result element.
Variable stdout_of : list string -> result string.

(** Lines 119-130: the body of the [try].  The JSON branch parses the
    content and drops it, whatever [json.loads] does. *)
Definition read_history (f : string) : io (list entry) :=
  (content <- hdfs_cat stdout_of f ;;
   if looks_like_xml content
   then io_lift (parse_history_xml int_of_str fromstring content)
   else io_ret [])%io.

(** Lines 117-132: one iteration, with its [except Exception as e]. *)
Definition collect (entries : list entry) (f : string) : io (list entry) :=
  fun w =>
    match read_history f w with
    | (Ok parsed, w') => (Ok (entries ++ parsed), w')
    | (Raise e, w') =>
        (Ok entries, logged w' [Printed (String.append "Failed to read " f) (Some e)])
    end.

(** Lines 108-136; the function is [main] in its script. *)
Definition parser_main (args : parser_arguments) : io unit :=
  (files <- hdfs_ls stdout_of (hdfs_path args) ;;
   match filter (fun f => contains (lower (workload args)) (lower f)) files with
   | [] =>
       print (String.append "No matching jobhistory files for workload: "
                            (workload args)) None
   | matched =>
       entries <- io_for_each collect matched [] ;;
       CP <- io_lift (compute_ndt_and_Ci entries) ;;
       write_weights_xml round6 str (out args) (workload args) (fst CP) (snd CP) ;;
       print (String.append "Wrote weights to " (out args)) None
   end)%io.

(** The records a history file contributes. *)
Definition records_of_file (f : string) : list entry :=
  match stdout_of (cat_cmd f) with
  | Ok content =>
      if looks_like_xml content
      then match fromstring content with
           | Ok root => extract_records int_of_str root
           | Raise _ => []
           end
      else []
  | Raise _ => []
  end.

Definition matching_files (args : parser_arguments) (listing : string) : list string :=
  filter (fun f => contains (lower (workload args)) (lower f)) (ls_files listing).

End ParserMain.

(** A small cluster for the examples: the listing above, one history file in
    XML, and a toy [ET.fromstring] that knows the documents of the examples. *)
Fixpoint zeros (n : nat) : string :=
  match n with
  | O => EmptyString
  | S n' => String "0" (zeros n')
  end.

Definition endless_history : element :=
  Element "job" [] None None
    [Element "taskAttempt" [] None None
       [leaf "startTime" "0"; leaf "finishTime" (String "1" (zeros 400));
        leaf "hdfsBytesRead" "1"; leaf "trackerName" "n1"]].

Definition demo_fromstring (content : string) : result element :=
  if String.eqb content "<job>mixed</job>" then Ok mixed_history
  else if String.eqb content "<job>endless</job>" then Ok endless_history
  else Raise ParseError.

Definition demo_stdout (history : string) (cmd : list string) : result string :=
  match cmd with
  | ["hdfs"; "dfs"; "-ls"; _] => Ok (render_listing demo_listing)
  | ["hdfs"; "dfs"; "-cat"; "/user/hadoop/jobhistory/job_1_WordCount.xml"] =>
      Ok history
  | _ => Raise CalledProcessError
  end.

Definition empty_world : world := World [] [] (fun _ => None) [].

Definition demo_parser_args (workload : string) : parser_arguments :=
  ParserArgs "/user/hadoop/jobhistory" workload "/tmp/WordCount.xml".


(** * Part III: lemmas and theorems *)

(** ** Facts about dicts and loops *)

Section DictFacts.

Context {V : Type}.
Implicit Types (d : dict V) (k : string) (v : V).

Lemma dict_get_set_same d k v : dict_get (dict_set d k v) k = Some v.
Proof.
  induction d as [|[k' v'] d IH]; simpl.
  - now rewrite String.eqb_refl.
  - destruct (String.eqb k' k) eqn:E; simpl; rewrite E; auto.
Qed.

Lemma dict_get_set_other d k k' v :
  k <> k' -> dict_get (dict_set d k v) k' = dict_get d k'.
Proof.
  intros Hne. induction d as [|[k0 v0] d IH]; simpl.
  - destruct (String.eqb k k') eqn:E; auto.
    apply String.eqb_eq in E. contradiction.
  - destruct (String.eqb k0 k) eqn:E; simpl.
    + apply String.eqb_eq in E. subst k0.
      destruct (String.eqb k k') eqn:E'; auto.
      apply String.eqb_eq in E'. contradiction.
    + now rewrite IH.
Qed.

Lemma dict_get_None d k : dict_get d k = None <-> ~ In k (keys d).
Proof.
  induction d as [|[k' v'] d IH]; simpl.
  - tauto.
  - destruct (String.eqb k' k) eqn:E.
    + apply String.eqb_eq in E. split; [discriminate | tauto].
    + apply String.eqb_neq in E. rewrite IH. tauto.
Qed.

Lemma dict_get_Some_In d k v : dict_get d k = Some v -> In k (keys d).
Proof.
  intros H. destruct (in_dec string_dec k (keys d)) as [Hin|Hout]; auto.
  apply dict_get_None in Hout. congruence.
Qed.

Lemma dict_get_In d k : In k (keys d) -> exists v, dict_get d k = Some v.
Proof.
  intros Hin. destruct (dict_get d k) as [v|] eqn:E; eauto.
  apply dict_get_None in E. contradiction.
Qed.

(** Setting a new key appends the binding. *)
Lemma dict_set_fresh d k v : ~ In k (keys d) -> dict_set d k v = d ++ [(k, v)].
Proof.
  induction d as [|[k' v'] d IH]; simpl; intros Hout; auto.
  destruct (String.eqb k' k) eqn:E.
  - apply String.eqb_eq in E. tauto.
  - rewrite IH; tauto.
Qed.

(** Setting an existing key keeps the keys and their order. *)
Lemma keys_dict_set_old d k v : In k (keys d) -> keys (dict_set d k v) = keys d.
Proof.
  induction d as [|[k' v'] d IH]; simpl; intros Hin; [tauto|].
  destruct (String.eqb k' k) eqn:E; simpl; auto.
  apply String.eqb_neq in E. f_equal. apply IH. tauto.
Qed.

Lemma keys_dict_set_new d k v :
  ~ In k (keys d) -> keys (dict_set d k v) = keys d ++ [k].
Proof.
  intros Hout. rewrite dict_set_fresh by assumption.
  unfold keys. now rewrite map_app.
Qed.

Lemma In_keys_dict_set d k v k' :
  In k' (keys (dict_set d k v)) <-> k' = k \/ In k' (keys d).
Proof.
  destruct (in_dec string_dec k (keys d)) as [Hin|Hout].
  - rewrite keys_dict_set_old by assumption.
    split; [tauto | intros [->|]; auto].
  - rewrite keys_dict_set_new by assumption.
    rewrite in_app_iff. simpl. intuition congruence.
Qed.

Lemma NoDup_keys_dict_set d k v :
  NoDup (keys d) -> NoDup (keys (dict_set d k v)).
Proof.
  intros Hnd. destruct (in_dec string_dec k (keys d)) as [Hin|Hout].
  - now rewrite keys_dict_set_old.
  - rewrite keys_dict_set_new by assumption.
    apply NoDup_app; auto.
    + constructor; [simpl; tauto | constructor].
    + intros x Hx [<-|[]]. contradiction.
Qed.

Lemma dict_get_default_set_same d k v dflt :
  dict_get_default (dict_set d k v) k dflt = v.
Proof. unfold dict_get_default. now rewrite dict_get_set_same. Qed.

Lemma dict_get_default_set_other d k k' v dflt :
  k <> k' ->
  dict_get_default (dict_set d k v) k' dflt = dict_get_default d k' dflt.
Proof.
  intros. unfold dict_get_default. now rewrite dict_get_set_other.
Qed.

Lemma dict_get_app_l d d' k :
  In k (keys d) -> dict_get (d ++ d') k = dict_get d k.
Proof.
  induction d as [|[k' v'] d IH]; simpl; intros Hin; [tauto|].
  destruct (String.eqb k' k) eqn:E; auto.
  apply String.eqb_neq in E. apply IH. tauto.
Qed.

Lemma dict_get_app_r d d' k :
  ~ In k (keys d) -> dict_get (d ++ d') k = dict_get d' k.
Proof.
  induction d as [|[k' v'] d IH]; simpl; intros Hout; auto.
  destruct (String.eqb k' k) eqn:E.
  - apply String.eqb_eq in E. tauto.
  - apply IH. tauto.
Qed.

End DictFacts.

Lemma mapM_Ok_Forall2 {A B : Type} (f : A -> result B) l bs :
  mapM f l = Ok bs <-> Forall2 (fun a b => f a = Ok b) l bs.
Proof.
  revert bs. induction l as [|a l IH]; simpl; intros bs.
  - split; intros H; [injection H as <-; constructor | now inversion H].
  - destruct (f a) as [b|e] eqn:Ea; simpl.
    + destruct (mapM f l) as [bs'|e] eqn:El; simpl.
      * split; intros H.
        -- injection H as <-. constructor; auto. now apply IH.
        -- inversion H as [|? b' ? bs'' Hb Hbs]; subst.
           apply IH in Hbs. congruence.
      * split; intros H; [discriminate|].
        inversion H as [|? b' ? bs'' Hb Hbs]; subst.
        apply IH in Hbs. discriminate.
    + split; intros H; [discriminate|].
      inversion H; subst. congruence.
Qed.

Lemma mapM_length {A B : Type} (f : A -> result B) l bs :
  mapM f l = Ok bs -> List.length bs = List.length l.
Proof.
  intros H. apply mapM_Ok_Forall2 in H. symmetry.
  eapply Forall2_length; eauto.
Qed.



(** A loop that sets [acc[key x] = f x] for each [x] of a list whose keys are
    pairwise distinct and new to [acc] appends one binding per element. *)
Lemma for_each_build {A V : Type} (key : A -> string) (f : A -> result V)
    (body : dict V -> A -> result (dict V)) :
  (forall acc x, body acc x = (v <- f x ;; Ok (dict_set acc (key x) v))) ->
  forall l acc,
    NoDup (map key l) ->
    (forall x, In x l -> ~ In (key x) (keys acc)) ->
    for_each body l acc =
    (vs <- mapM f l ;; Ok (acc ++ combine (map key l) vs)).
Proof.
  intros Hbody l. induction l as [|x l IH]; simpl; intros acc Hnd Hfresh.
  - now rewrite app_nil_r.
  - rewrite Hbody. destruct (f x) as [v|e]; simpl; auto.
    inversion Hnd as [|? ? Hx Hnd']; subst.
    rewrite IH; auto.
    + destruct (mapM f l) as [vs|e]; simpl; auto.
      rewrite dict_set_fresh by auto.
      now rewrite <- app_assoc.
    + intros y Hy. rewrite In_keys_dict_set. intros [Heq|Hin].
      * apply Hx. rewrite <- Heq. now apply in_map.
      * eapply Hfresh; eauto.
Qed.

Lemma keys_combine {V : Type} (ks : list string) (vs : list V) :
  List.length vs = List.length ks -> keys (combine ks vs) = ks.
Proof.
  revert vs. induction ks as [|k ks IH]; intros [|v vs]; simpl; try discriminate; auto.
  intros H. f_equal. apply IH. lia.
Qed.

Lemma dict_get_combine {A V : Type} (key : A -> string) (f : A -> result V) l vs x :
  mapM f l = Ok vs -> NoDup (map key l) -> In x l ->
  exists v, f x = Ok v /\ dict_get (combine (map key l) vs) (key x) = Some v.
Proof.
  revert vs. induction l as [|a l IH]; simpl; intros vs Hm Hnd Hin; [tauto|].
  destruct (f a) as [v|] eqn:Ea; simpl in Hm; [|discriminate].
  destruct (mapM f l) as [vs'|] eqn:El; simpl in Hm; [|discriminate].
  injection Hm as <-. inversion Hnd as [|? ? Ha Hnd']; subst. simpl.
  destruct Hin as [->|Hin].
  - exists v. now rewrite String.eqb_refl.
  - destruct (String.eqb (key a) (key x)) eqn:E.
    + apply String.eqb_eq in E. exfalso. apply Ha. rewrite E. now apply in_map.
    + eapply IH; eauto.
Qed.

Lemma keys_dict_set_congr {V W : Type} (d : dict V) (d' : dict W) k v w :
  keys d = keys d' -> keys (dict_set d k v) = keys (dict_set d' k w).
Proof.
  intros Hk. destruct (in_dec string_dec k (keys d)) as [Hin|Hout].
  - rewrite !keys_dict_set_old; congruence.
  - rewrite !keys_dict_set_new; congruence.
Qed.

(** ** Facts about the weight computer, for any arithmetic *)

Section WeightFacts.

Context {F : Type} {AF : Arith F}.

Lemma counted_skipped n e : skipped e = true -> counted n e = false.
Proof. unfold counted. now intros ->. Qed.

Lemma counted_node e : skipped e = false -> counted (node e) e = true.
Proof. unfold counted. intros ->. simpl. apply String.eqb_refl. Qed.

Lemma counted_other n e : node e <> n -> counted n e = false.
Proof.
  unfold counted. intros Hne. apply String.eqb_neq in Hne. rewrite Hne.
  apply andb_false_r.
Qed.

(** The first loop, from any state: each record that counts for [n] adds
    its ndt to [ndt_sum[n]] and one to [ndt_count[n]], in the order of the
    list, and nothing else changes. *)
Lemma accumulate_from entries : forall S0 N0 S N,
  for_each accumulate_step entries (S0, N0) = Ok (S, N) ->
  keys S0 = keys N0 -> NoDup (keys S0) ->
  keys S = keys N /\ NoDup (keys S) /\
  (forall n, In n (keys S) <-> In n (keys S0) \/ samples n entries <> []) /\
  (forall n, dict_get_default N n 0 =
             dict_get_default N0 n 0 + Z.of_nat (length (samples n entries))) /\
  (forall n, exists xs,
      mapM ndt_of (samples n entries) = Ok xs /\
      dict_get_default S n lit0 = fold_left fadd xs (dict_get_default S0 n lit0)).
Proof.
  induction entries as [|e es IH]; intros S0 N0 S N Hrun Hk Hnd.
  - simpl in Hrun. injection Hrun as <- <-.
    repeat split; auto.
    + intros [H|H]; [assumption | now elim H].
    + simpl. lia.
    + exists []. now simpl.
  - simpl in Hrun. destruct (skipped e) eqn:Hs; simpl in Hrun.
    + destruct (IH _ _ _ _ Hrun Hk Hnd) as (H1 & H2 & H3 & H4 & H5).
      assert (Hsame : forall n, samples n (e :: es) = samples n es).
      { intros n. unfold samples. simpl. now rewrite (counted_skipped n e Hs). }
      split; [assumption|]. split; [assumption|].
      split; [|split]; intros n; rewrite Hsame; auto.
    + destruct (ndt_of e) as [x|] eqn:Hx; simpl in Hrun; [|discriminate].
      apply IH in Hrun;
        [ | now apply keys_dict_set_congr | now apply NoDup_keys_dict_set ].
      destruct Hrun as (H1 & H2 & H3 & H4 & H5).
      repeat split; auto.
      * intros Hin. apply H3 in Hin. rewrite In_keys_dict_set in Hin.
        unfold samples. simpl.
        destruct Hin as [[->|Hin]|Hin]; auto.
        -- right. rewrite (counted_node e Hs). discriminate.
        -- right. destruct (counted n e); [discriminate | assumption].
      * intros Hin. apply H3. rewrite In_keys_dict_set.
        unfold samples in *. simpl in Hin.
        destruct Hin as [Hin|Hin]; auto.
        destruct (counted n e) eqn:Hc; auto.
        left. left. unfold counted in Hc. apply andb_prop in Hc.
        destruct Hc as [_ Hc]. apply String.eqb_eq in Hc. now subst.
      * intros n. rewrite H4. unfold samples. simpl.
        destruct (string_dec (node e) n) as [<-|Hne].
        -- rewrite dict_get_default_set_same, (counted_node e Hs).
           simpl length. lia.
        -- rewrite dict_get_default_set_other by assumption.
           now rewrite (counted_other n e Hne).
      * intros n. destruct (H5 n) as (xs & Hxs & Hsum).
        unfold samples in *. simpl.
        destruct (string_dec (node e) n) as [<-|Hne].
        -- rewrite (counted_node e Hs). exists (x :: xs). simpl.
           rewrite Hx, Hxs. simpl. split; auto.
           now rewrite Hsum, dict_get_default_set_same.
        -- rewrite (counted_other n e Hne). exists xs. split; auto.
           now rewrite Hsum, dict_get_default_set_other.
Qed.

Lemma accumulate_spec entries S N :
  accumulate entries = Ok (S, N) ->
  keys S = keys N /\ NoDup (keys S) /\
  (forall n, In n (keys S) <-> samples n entries <> []) /\
  (forall n, dict_get_default N n 0 = Z.of_nat (length (samples n entries))) /\
  (forall n, exists xs,
      mapM ndt_of (samples n entries) = Ok xs /\
      dict_get_default S n lit0 = fold_left fadd xs lit0).
Proof.
  intros Hrun. apply accumulate_from in Hrun; [|reflexivity|constructor].
  destruct Hrun as (H1 & H2 & H3 & H4 & H5). repeat split; auto.
  - intros Hin. apply H3 in Hin. simpl in Hin. tauto.
  - intros Hin. apply H3. now right.
Qed.

Lemma averages_eq S N :
  NoDup (keys S) ->
  averages S N = (vs <- mapM (average_of S N) (keys S) ;; Ok (combine (keys S) vs)).
Proof.
  intros Hnd. unfold averages.
  rewrite (for_each_build (fun n => n) (average_of S N)).
  - now rewrite map_id.
  - intros acc n. unfold average_step, average_of.
    destruct (float_of_int _); simpl; auto.
  - now rewrite map_id.
  - intros x _ [].
Qed.

Lemma capacities_eq A :
  NoDup (keys A) ->
  capacities A =
  (vs <- mapM (fun item => capacity_of (snd item)) A ;; Ok (combine (keys A) vs)).
Proof.
  intros Hnd. unfold capacities.
  rewrite (for_each_build fst (fun item => capacity_of (snd item))); auto.
Qed.

Lemma weights_eq C :
  NoDup (keys C) ->
  weights C =
  if fgt0 (fsum (values C))
  then (vs <- mapM (fun item => fdiv (snd item) (fsum (values C))) C ;;
        Ok (combine (keys C) vs))
  else (vs <- mapM (fun _ => fallback_weight C) (keys C) ;;
        Ok (combine (keys C) vs)).
Proof.
  intros Hnd. unfold weights. destruct (fgt0 _).
  - rewrite (for_each_build fst (fun item => fdiv (snd item) (fsum (values C)))); auto.
  - rewrite (for_each_build (fun n => n) (fun _ => fallback_weight C)).
    + now rewrite map_id.
    + reflexivity.
    + now rewrite map_id.
    + intros x _ [].
Qed.

End WeightFacts.

Lemma dict_get_In_pair {V : Type} (d : dict V) k v :
  dict_get d k = Some v -> In (k, v) d.
Proof.
  induction d as [|[k' v'] d IH]; simpl; [discriminate|].
  destruct (String.eqb k' k) eqn:E; auto.
  apply String.eqb_eq in E. intros [= ->]. left. now subst.
Qed.

(** What a loop of the shape of [for_each_build] leaves in the dict. *)
Lemma build_lookup {A V : Type} (key : A -> string) (f : A -> result V) l d :
  (vs <- mapM f l ;; Ok (combine (map key l) vs)) = Ok d ->
  NoDup (map key l) ->
  keys d = map key l /\
  forall x, In x l -> exists v, f x = Ok v /\ dict_get d (key x) = Some v.
Proof.
  intros Hrun Hnd. destruct (mapM f l) as [vs|] eqn:Hm; simpl in Hrun; [|discriminate].
  injection Hrun as <-. split.
  - apply keys_combine. rewrite (mapM_length _ _ _ Hm). now rewrite length_map.
  - intros x Hin. eapply dict_get_combine; eauto.
Qed.

Lemma build_lookup_keys {V : Type} (f : string -> result V) l d :
  (vs <- mapM f l ;; Ok (combine l vs)) = Ok d ->
  NoDup l ->
  keys d = l /\
  forall n, In n l -> exists v, f n = Ok v /\ dict_get d n = Some v.
Proof.
  intros Hrun Hnd.
  pose proof (build_lookup (fun n => n) f l d) as H.
  rewrite map_id in H. auto.
Qed.

Section ComputeSpec.

Context {F : Type} {AF : Arith F}.

Lemma node_avg_ndt_spec entries A :
  node_avg_ndt_of entries = Ok A ->
  NoDup (keys A) /\
  (forall n, In n (keys A) <-> samples n entries <> []) /\
  (forall n a, dict_get A n = Some a -> node_average entries n a).
Proof.
  unfold node_avg_ndt_of. intros Hrun.
  destruct (accumulate entries) as [[S N]|] eqn:Hacc; simpl in Hrun; [|discriminate].
  destruct (accumulate_spec _ _ _ Hacc) as (HkN & Hnd & Hin & Hcnt & Hsum).
  rewrite averages_eq in Hrun by assumption.
  apply build_lookup_keys in Hrun; [|assumption].
  destruct Hrun as [HkA HA]. rewrite HkA.
  split; [assumption|]. split; [assumption|].
  intros n a Hget. pose proof (dict_get_Some_In _ _ _ Hget) as HinA.
  rewrite HkA in HinA. destruct (HA n HinA) as (a' & Havg & Hget').
  assert (a' = a) by congruence. subst a'.
  unfold average_of in Havg. rewrite Hcnt in Havg.
  destruct (Hsum n) as (xs & Hxs & Hs). rewrite Hs in Havg.
  destruct (float_of_int _) as [cnt|] eqn:Hc; simpl in Havg; [|discriminate].
  exists xs, cnt. rewrite (mapM_length _ _ _ Hxs). auto.
Qed.

Lemma weights_spec C P :
  NoDup (keys C) -> weights C = Ok P ->
  keys P = keys C /\ weights_explained C P.
Proof.
  intros Hnd Hrun. rewrite weights_eq in Hrun by assumption.
  unfold weights_explained. cbv zeta.
  destruct (fgt0 (fsum (values C))).
  - apply build_lookup in Hrun; [|assumption].
    destruct Hrun as [Hk HP]. split; [assumption|].
    intros n c Hget. apply dict_get_In_pair in Hget.
    apply (HP (n, c) Hget).
  - apply build_lookup_keys in Hrun; [|assumption].
    destruct Hrun as [Hk HP]. split; [assumption|].
    intros n Hin. apply (HP n Hin).
Qed.

(** The result of [compute_ndt_and_Ci], whenever it returns. *)
Theorem compute_spec entries C P :
  compute_ndt_and_Ci entries = Ok (C, P) ->
  NoDup (keys C) /\ keys P = keys C /\
  (forall n, In n (keys C) <-> samples n entries <> []) /\
  (forall n c, dict_get C n = Some c -> node_capacity entries n c) /\
  weights_explained C P.
Proof.
  unfold compute_ndt_and_Ci. intros Hrun.
  destruct (accumulate entries) as [[S N]|] eqn:Hacc; simpl in Hrun; [|discriminate].
  destruct (averages S N) as [A|] eqn:HA; simpl in Hrun; [|discriminate].
  destruct (capacities A) as [C'|] eqn:HC; simpl in Hrun; [|discriminate].
  destruct (weights C') as [P'|] eqn:HP; simpl in Hrun; [|discriminate].
  injection Hrun as <- <-.
  assert (Havg : node_avg_ndt_of entries = Ok A).
  { unfold node_avg_ndt_of. now rewrite Hacc. }
  destruct (node_avg_ndt_spec _ _ Havg) as (HndA & HinA & HgetA).
  rewrite capacities_eq in HC by assumption.
  apply build_lookup in HC; [|assumption].
  destruct HC as [HkC HgetC]. fold (keys A) in HkC.
  assert (HndC : NoDup (keys C')) by now rewrite HkC.
  destruct (weights_spec _ _ HndC HP) as [HkP HexP].
  split; [assumption|]. split; [assumption|].
  split; [intros n; rewrite HkC; apply HinA|].
  split; [|assumption].
  intros n c Hget. pose proof (dict_get_Some_In _ _ _ Hget) as Hin.
  rewrite HkC in Hin. destruct (dict_get_In _ _ Hin) as [a Ha].
  destruct (HgetC (n, a) (dict_get_In_pair _ _ _ Ha)) as (c' & Hcap & Hget').
  simpl in *. assert (c' = c) by congruence. subst c'.
  exists a. split; eauto.
Qed.

End ComputeSpec.

(** ** The weight computer in exact arithmetic *)

Section ExactArithmetic.

Local Open Scope Qc_scope.














Lemma skipped_false e :
  skipped e = false -> (0 < hdfs_bytes e)%Z /\ (start e < finish e)%Z.
Proof.
  unfold skipped. intros H. apply orb_false_elim in H. destruct H as [H1 H2].
  apply Z.leb_gt in H1, H2. auto.
Qed.



Lemma samples_counted n entries e :
  In e (samples n entries) -> skipped e = false /\ node e = n.
Proof.
  unfold samples. rewrite filter_In. unfold counted. intros [_ H].
  apply andb_prop in H. destruct H as [H1 H2].
  apply negb_true_iff in H1. apply String.eqb_eq in H2. auto.
Qed.




End ExactArithmetic.







Section ExactCompute.

Local Open Scope Qc_scope.







End ExactCompute.

(** ** The weight computer: the properties of the specification *)

Lemma samples_nil_iff (n : string) (entries : list entry) :
  samples n entries = [] <->
  forall e, In e entries -> node e = n -> skipped e = true.
Proof.
  unfold samples. split.
  - intros Hnil e He Hn. destruct (skipped e) eqn:Hs; auto.
    assert (Hin : In e (filter (counted n) entries)).
    { apply filter_In. split; auto. subst n. now apply counted_node. }
    rewrite Hnil in Hin. contradiction.
  - intros Hall. destruct (filter (counted n) entries) as [|e l] eqn:E; auto.
    assert (Hin : In e (filter (counted n) entries)) by (rewrite E; now left).
    apply filter_In in Hin. destruct Hin as [Hin Hc].
    unfold counted in Hc. apply andb_prop in Hc. destruct Hc as [Hs Hn].
    apply String.eqb_eq in Hn. rewrite (Hall e Hin Hn) in Hs. discriminate.
Qed.


(** C4. On [("n1", 1000, 2000, 1000), ("n2", 1000, 3000, 1000)] the average
    ndt is 0.001 for n1 and 0.002 for n2, the capacities are 1000 and 500,
    and the weights are the doubles nearest 2/3 and 1/3, which add up to 1.0;
    in exact arithmetic the weights are 2/3 and 1/3. *)
Theorem scenario_weights :
  node_avg_ndt_of (F:=float) scenario =
    Ok [("n1", 0.001%float); ("n2", 0.002%float)] /\
  compute_ndt_and_Ci (F:=float) scenario =
    Ok ([("n1", 1000%float); ("n2", 500%float)],
        [("n1", (2 / 3)%float); ("n2", (1 / 3)%float)]) /\
  compute_ndt_and_Ci (AF:=binary64_py312) scenario =
    Ok ([("n1", 1000%float); ("n2", 500%float)],
        [("n1", (2 / 3)%float); ("n2", (1 / 3)%float)]) /\
  b64_sum [(2 / 3)%float; (1 / 3)%float] = 1%float /\
  b64_sum_compensated [(2 / 3)%float; (1 / 3)%float] = 1%float /\
  PrimFloat.ltb (PrimFloat.abs (2 / 3 - 0.6667)) 0.00005 = true /\
  PrimFloat.ltb (PrimFloat.abs (1 / 3 - 0.3333)) 0.00005 = true /\
  compute_ndt_and_Ci (F:=Qc) scenario =
    Ok ([("n1", Qc_of_Z 1000); ("n2", Qc_of_Z 500)],
        [("n1", Q2Qc (2 # 3)); ("n2", Q2Qc (1 # 3))]).
Proof.
  repeat split; try (vm_compute; reflexivity).
  vm_compute. Qc_dict_eq.
Qed.

Lemma ndt_of_Ok {F : Type} {AF : Arith F} (e : entry) (x : F) :
  ndt_of e = Ok x <->
  exists d texec b,
    float_of_int (finish e - start e) = Ok d /\
    fdiv d lit1000 = Ok texec /\
    float_of_int (hdfs_bytes e) = Ok b /\
    fdiv texec b = Ok x.
Proof.
  unfold ndt_of. split.
  - destruct (float_of_int (finish e - start e)) as [d|] eqn:Hd; [|discriminate].
    cbn [bind]. destruct (fdiv d lit1000) as [texec|] eqn:Ht; [|discriminate].
    cbn [bind]. destruct (float_of_int (hdfs_bytes e)) as [b|] eqn:Hb; [|discriminate].
    cbn [bind]. intros H. exists d, texec, b. auto.
  - intros (d & texec & b & -> & H2 & H3 & H4). cbn [bind]. rewrite H2. cbn [bind].
    rewrite H3. exact H4.
Qed.

(** C3. When the weight computer returns, the nodes of the capacity mapping
    are exactly the nodes of the records with [hdfs_bytes > 0] and
    [finish > start]: every other record is skipped.  The capacity of a node
    comes from the records of the node that are not skipped, each taken once
    and in the order of the list: their ndt
    [((finish - start) / 1000.0) / hdfs_bytes] are added up from 0.0, the sum
    is divided by their number, and the capacity is [1.0 / avg_ndt] of that
    one average (0.0 if the average is not positive) -- two records of a node
    give one averaged ndt, not two capacities added up.  The weight mapping
    has the same nodes. *)
Theorem valid_records_are_averaged {F : Type} {AF : Arith F}
    (entries : list entry) (C P : dict F) :
  compute_ndt_and_Ci entries = Ok (C, P) ->
  (forall n, In n (keys C) <->
             exists e, In e entries /\ node e = n /\
                       0 < hdfs_bytes e /\ start e < finish e) /\
  (forall n c, dict_get C n = Some c ->
     exists xs cnt avg,
       Forall2 (fun e x =>
                  exists d texec b,
                    float_of_int (finish e - start e) = Ok d /\
                    fdiv d lit1000 = Ok texec /\
                    float_of_int (hdfs_bytes e) = Ok b /\
                    fdiv texec b = Ok x)
               (filter (fun e => negb ((hdfs_bytes e <=? 0) || (finish e <=? start e))
                                 && String.eqb (node e) n) entries)
               xs /\
       float_of_int (Z.of_nat (length xs)) = Ok cnt /\
       fdiv (fold_left fadd xs lit0) cnt = Ok avg /\
       (if fgt0 avg then fdiv lit1 avg else Ok lit0) = Ok c) /\
  keys P = keys C.
Proof.
  intros Hrun. destruct (compute_spec _ _ _ Hrun) as (_ & HkP & Hin & Hcap & _).
  split; [|split; [|exact HkP]].
  - intros n. rewrite Hin. split.
    + intros Hne. destruct (samples n entries) as [|e l] eqn:E; [congruence|].
      assert (He : In e (samples n entries)) by (rewrite E; now left).
      exists e. pose proof (samples_counted _ _ _ He) as [Hs Hn].
      apply skipped_false in Hs.
      unfold samples in He. apply filter_In in He. tauto.
    + intros (e & He & Hn & Hb & Ht) Hnil.
      rewrite samples_nil_iff in Hnil. specialize (Hnil e He Hn).
      unfold skipped in Hnil. apply orb_prop in Hnil.
      destruct Hnil as [H|H]; apply Z.leb_le in H; lia.
  - intros n c Hc. destruct (Hcap n c Hc) as (avg & (xs & cnt & Hxs & Hcnt & Hdiv) & Hc').
    exists xs, cnt, avg. split; [|auto].
    apply mapM_Ok_Forall2 in Hxs.
    eapply Forall2_impl; [|exact Hxs].
    intros e x Hex. now apply ndt_of_Ok.
Qed.

Lemma valid_records_are_averaged_witness :
  compute_ndt_and_Ci (F:=float) two_samples = Ok ([("n", 500%float)], [("n", 1%float)]) /\
  exists xs cnt avg,
    Forall2 (fun e x =>
               exists d texec b,
                 float_of_int (finish e - start e) = Ok d /\
                 fdiv d lit1000 = Ok texec /\
                 float_of_int (hdfs_bytes e) = Ok b /\
                 fdiv texec b = Ok x)
            (filter (fun e => negb ((hdfs_bytes e <=? 0) || (finish e <=? start e))
                              && String.eqb (node e) "n") two_samples)
            xs /\
    float_of_int (Z.of_nat (length xs)) = Ok cnt /\
    fdiv (fold_left fadd xs lit0) cnt = Ok avg /\
    (if fgt0 avg then fdiv lit1 avg else Ok lit0) = Ok 500%float.
Proof.
  assert (Hrun : compute_ndt_and_Ci (F:=float) two_samples =
                 Ok ([("n", 500%float)], [("n", 1%float)]))
    by (vm_compute; reflexivity).
  split; [exact Hrun|].
  exact (proj1 (proj2 (valid_records_are_averaged (F:=float) two_samples
                         [("n", 500%float)] [("n", 1%float)] Hrun))
           "n" 500%float eq_refl).
Defined.

Example two_samples_capacity :
  node_avg_ndt_of (F:=float) two_samples = Ok [("n", 0.002%float)] /\
  compute_ndt_and_Ci (AF:=binary64_py312) two_samples =
    Ok ([("n", 500%float)], [("n", 1%float)]).
Proof. split; vm_compute; reflexivity. Qed.

(** C5. A node all of whose records are skipped is in neither mapping of the
    output; and when every record has [hdfs_bytes = 0] the function returns
    two empty mappings. *)
Theorem skipped_only_node_absent {F : Type} {AF : Arith F} (entries : list entry) :
  (forall n C P,
      compute_ndt_and_Ci (F:=F) entries = Ok (C, P) ->
      (forall e, In e entries -> node e = n -> skipped e = true) ->
      dict_get C n = None /\ dict_get P n = None) /\
  ((forall e, In e entries -> hdfs_bytes e = 0) ->
   compute_ndt_and_Ci (F:=F) entries = Ok ([], [])).
Proof.
  split.
  - intros n C P Hrun Hall.
    destruct (compute_spec _ _ _ Hrun) as (_ & HkP & Hin & _).
    assert (Hout : ~ In n (keys C)).
    { rewrite Hin. intros Hne. apply Hne. now apply samples_nil_iff. }
    split; apply dict_get_None; [|rewrite HkP]; assumption.
  - intros Hall. unfold compute_ndt_and_Ci, accumulate.
    assert (Hacc : forall st : dict F * dict Z,
               for_each accumulate_step entries st = Ok st).
    { induction entries as [|e es IH]; intros [S N]; simpl; auto.
      assert (Hs : skipped e = true).
      { unfold skipped. rewrite (Hall e) by now left. reflexivity. }
      rewrite Hs. simpl. apply IH. intros e' He'. apply Hall. now right. }
    rewrite Hacc. simpl. unfold weights. simpl.
    destruct (fgt0 _); reflexivity.
Qed.

Lemma skipped_only_node_absent_witness :
  (dict_get [("a", 1000%float)] "b" = None /\
   dict_get [("a", 1%float)] "b" = None) /\
  compute_ndt_and_Ci (F:=float) [Entry "a" 0 5 0; Entry "b" 3 9 0] = Ok ([], []).
Proof.
  split.
  - assert (Hrun : compute_ndt_and_Ci (F:=float)
                     [Entry "a" 0 1000 1000; Entry "b" 0 1000 0; Entry "b" 5 5 10]
                   = Ok ([("a", 1000%float)], [("a", 1%float)]))
      by (vm_compute; reflexivity).
    apply (proj1 (skipped_only_node_absent (F:=float) _) "b" _ _ Hrun).
    intros e [<-|[<-|[<-|[]]]]; simpl; intros H;
      solve [reflexivity | discriminate H].
  - apply (proj2 (skipped_only_node_absent (F:=float)
                    [Entry "a" 0 5 0; Entry "b" 3 9 0])).
    intros e [<-|[<-|[]]]; reflexivity.
Defined.













(** ** Facts about the upserter *)

Lemma find_app {A : Type} (f : A -> bool) l l' :
  List.find f (l ++ l') =
  match List.find f l with Some a => Some a | None => List.find f l' end.
Proof.
  induction l as [|a l IH]; simpl; auto. now destruct (f a).
Qed.

Lemma tag_of_with_text c s : tag_of (with_text c s) = tag_of c.
Proof. now destruct c. Qed.

Lemma find_set_first_text t t' s cs :
  t <> t' ->
  List.find (has_tag t') (set_first_text t s cs) = List.find (has_tag t') cs.
Proof.
  intros Hne. induction cs as [|c cs IH]; simpl; auto.
  destruct (has_tag t c) eqn:Ht; simpl.
  - unfold has_tag in *. rewrite tag_of_with_text.
    apply String.eqb_eq in Ht. rewrite Ht.
    apply String.eqb_neq in Hne. now rewrite Hne.
  - now rewrite IH.
Qed.

Lemma find_set_first_text_same t s cs c :
  List.find (has_tag t) cs = Some c ->
  List.find (has_tag t) (set_first_text t s cs) = Some (with_text c s).
Proof.
  induction cs as [|c' cs IH]; simpl; [discriminate|].
  destruct (has_tag t c') eqn:Ht; simpl.
  - intros [= ->]. unfold has_tag in *. now rewrite tag_of_with_text, Ht.
  - now rewrite Ht.
Qed.

Lemma tag_of_set_value v p : tag_of (set_value v p) = tag_of p.
Proof. unfold set_value. destruct (find "value" p); now destruct p. Qed.

Lemma find_name_set_value v p : find "name" (set_value v p) = find "name" p.
Proof.
  unfold set_value, find. destruct p as [t a x tl cs]. simpl.
  destruct (List.find (has_tag "value") cs) eqn:E; simpl.
  - apply find_set_first_text. discriminate.
  - rewrite find_app. destruct (List.find (has_tag "name") cs); reflexivity.
Qed.

Lemma is_named_set_value k v p : is_named k (set_value v p) = is_named k p.
Proof.
  unfold is_named, name_matches, has_tag.
  now rewrite tag_of_set_value, find_name_set_value.
Qed.

Lemma value_of_set_value v p : value_of (set_value v p) = Some v.
Proof.
  unfold value_of, set_value, find. destruct p as [t a x tl cs]. simpl.
  destruct (List.find (has_tag "value") cs) as [c|] eqn:E; simpl.
  - rewrite (find_set_first_text_same _ _ _ _ E). now destruct c.
  - rewrite find_app, E. reflexivity.
Qed.

Lemma value_of_new_property k v : value_of (new_property k v) = Some v.
Proof. reflexivity. Qed.

Lemma is_named_new_property k v : is_named k (new_property k v) = true.
Proof.
  unfold is_named, name_matches. simpl. apply String.eqb_refl.
Qed.

(** The loop rewrites the first property named [k] and nothing else. *)
Lemma upsert_loop_spec k v cs :
  match upsert_loop k v cs with
  | Some cs' =>
      exists l1 p l2,
        cs = l1 ++ p :: l2 /\ cs' = l1 ++ set_value v p :: l2 /\
        is_named k p = true /\ filter (is_named k) l1 = []
  | None => filter (is_named k) cs = []
  end.
Proof.
  induction cs as [|c cs IH]; simpl; auto.
  fold (is_named k c). destruct (is_named k c) eqn:Hc.
  - exists [], c, cs. auto.
  - destruct (upsert_loop k v cs) as [cs'|]; simpl; auto.
    destruct IH as (l1 & p & l2 & -> & -> & Hp & Hl1).
    exists (c :: l1), p, l2. simpl. rewrite Hc. auto.
Qed.

(** What [upsert] does to the properties named [k], and to the rest. *)
Lemma upsert_spec doc k v :
  properties_named k (upsert doc k v) =
    match properties_named k doc with
    | [] => [new_property k v]
    | p :: ps => set_value v p :: ps
    end /\
  other_content k (upsert doc k v) = other_content k doc.
Proof.
  unfold properties_named, other_content, upsert.
  pose proof (upsert_loop_spec k v (children_of doc)) as H.
  destruct doc as [t a x tl cs]. simpl in *.
  destruct (upsert_loop k v cs) as [cs'|].
  - destruct H as (l1 & p & l2 & -> & -> & Hp & Hl1). simpl.
    rewrite !filter_app. simpl.
    rewrite is_named_set_value, Hp, Hl1. simpl. auto.
  - simpl. rewrite !filter_app, H. simpl.
    rewrite is_named_new_property. simpl. now rewrite app_nil_r.
Qed.

(** ** The property upserter: the properties of the specification *)



(** ** Facts about writing and reading back *)

Lemma dict_set_twice {V : Type} (d : dict V) k v1 v2 :
  dict_set (dict_set d k v1) k v2 = dict_set d k v2.
Proof.
  induction d as [|[k' v'] d IH]; simpl.
  - now rewrite String.eqb_refl.
  - destruct (String.eqb k' k) eqn:E; simpl; rewrite E; [reflexivity|].
    now rewrite IH.
Qed.

Lemma upsert_loop_found k v l1 p l2 :
  filter (is_named k) l1 = [] -> is_named k p = true ->
  upsert_loop k v (l1 ++ p :: l2) = Some (l1 ++ set_value v p :: l2).
Proof.
  intros Hl1 Hp. induction l1 as [|c l1 IH]; simpl.
  - fold (is_named k p). now rewrite Hp.
  - simpl in Hl1. fold (is_named k c).
    destruct (is_named k c); [discriminate|]. now rewrite IH.
Qed.

(** Induction on a document: a property that holds of an element whenever
    it holds of its children holds of every element. *)
Lemma element_induction (P : element -> Prop) :
  (forall t a x tl cs, Forall P cs -> P (Element t a x tl cs)) ->
  forall e, P e.
Proof.
  intros H. fix IH 1. intros [t a x tl cs]. apply H.
  induction cs as [|c cs IHcs]; constructor; auto.
Qed.

Lemma map_fixed {A : Type} (f : A -> A) (l : list A) :
  map f l = l <-> Forall (fun a => f a = a) l.
Proof.
  induction l as [|a l IH]; simpl.
  - split; auto.
  - split.
    + intros [= Ha Hl]. constructor; [assumption | now apply IH].
    + intros H. inversion H; subst. f_equal; [assumption | now apply IH].
Qed.

Lemma plain_char_xml c : plain_char c = true -> xml_char c = true.
Proof.
  unfold plain_char, xml_char. cbv zeta.
  destruct (nat_of_ascii c =? 9)%nat; simpl; auto.
  intros ->. now rewrite !orb_true_r.
Qed.

Lemma plain_char_no_cr c : plain_char c = true -> Ascii.eqb c "013"%char = false.
Proof.
  destruct (Ascii.eqb c "013"%char) eqn:E; auto.
  apply Ascii.eqb_eq in E. subst c. vm_compute. auto.
Qed.

Lemma plain_char_no_lf c : plain_char c = true -> Ascii.eqb c "010"%char = false.
Proof.
  destruct (Ascii.eqb c "010"%char) eqn:E; auto.
  apply Ascii.eqb_eq in E. subst c. vm_compute. auto.
Qed.

Lemma all_chars_impl (p q : ascii -> bool) s :
  (forall c, p c = true -> q c = true) ->
  all_chars p s = true -> all_chars q s = true.
Proof.
  intros Hpq. induction s as [|c s IH]; simpl; auto.
  intros H. apply andb_prop in H. destruct H as [Hc Hs].
  now rewrite (Hpq c Hc), IH.
Qed.

Lemma line_ends_plain s : all_chars plain_char s = true -> line_ends s = s.
Proof.
  induction s as [|c s IH]; simpl; auto.
  intros H. apply andb_prop in H. destruct H as [Hc Hs].
  rewrite (plain_char_no_cr c Hc). now rewrite IH.
Qed.

Lemma plain_nonempty s : plain s = true -> s <> "".
Proof. intros H ->. discriminate H. Qed.

Lemma plain_xml_text s : plain s = true -> xml_text s = true.
Proof.
  unfold plain. intros H. apply andb_prop in H. destruct H as [_ H].
  revert H. apply all_chars_impl, plain_char_xml.
Qed.

Lemma read_text_plain s : plain s = true -> read_text (Some s) = Some s.
Proof.
  unfold plain, read_text. intros H. apply andb_prop in H. destruct H as [Hne Hs].
  apply negb_true_iff in Hne. rewrite Hne. now rewrite line_ends_plain.
Qed.

(** The text read back has no carriage return, and is empty only if the
    text written was. *)
Lemma line_ends_cons c s :
  line_ends (String c s) =
  if Ascii.eqb c "013"%char then
    match s with
    | String c' s'' =>
        if Ascii.eqb c' "010"%char then String "010"%char (line_ends s'')
        else String "010"%char (line_ends s)
    | EmptyString => String "010"%char (line_ends s)
    end
  else String c (line_ends s).
Proof. reflexivity. Qed.

Lemma line_ends_facts s :
  (all_chars (fun c => negb (Ascii.eqb c "013"%char)) (line_ends s) = true /\
   (line_ends s = "" -> s = "") /\
   (xml_text s = true -> xml_text (line_ends s) = true)) /\
  forall c,
    all_chars (fun c => negb (Ascii.eqb c "013"%char)) (line_ends (String c s)) = true /\
    (xml_text (String c s) = true -> xml_text (line_ends (String c s)) = true).
Proof.
  unfold xml_text. induction s as [|c' s IH].
  - split; [simpl; auto|]. intros c. simpl.
    destruct (Ascii.eqb c "013"%char) eqn:E; simpl; rewrite ?E; auto.
  - destruct IH as [(H1 & H2 & H3) IH]. split.
    + destruct (IH c') as [Hc1 Hc2]. split; [exact Hc1|]. split; [|exact Hc2].
      rewrite line_ends_cons. destruct (Ascii.eqb c' "013"%char); [|discriminate].
      destruct s as [|c'' s]; [discriminate|].
      destruct (Ascii.eqb c'' "010"%char); discriminate.
    + intros c. destruct (IH c') as [Hc1 Hc2].
      rewrite (line_ends_cons c). destruct (Ascii.eqb c "013"%char) eqn:E.
      * destruct (Ascii.eqb c' "010"%char) eqn:E'.
        -- split; [cbn [all_chars]; now rewrite H1|].
           intros H. cbn [all_chars] in H |- *.
           apply andb_prop in H. destruct H as [_ H].
           apply andb_prop in H. destruct H as [_ H].
           now rewrite (H3 H).
        -- split; [cbn [all_chars]; now rewrite Hc1|].
           intros H. change (all_chars xml_char (String c (String c' s)))
             with (xml_char c && all_chars xml_char (String c' s)) in H.
           apply andb_prop in H. destruct H as [_ H].
           change (xml_char "010" && all_chars xml_char (line_ends (String c' s)) = true).
           now rewrite (Hc2 H).
      * split.
        -- change (negb (Ascii.eqb c "013"%char)
                   && all_chars (fun c => negb (Ascii.eqb c "013"%char))
                        (line_ends (String c' s)) = true).
           now rewrite E, Hc1.
        -- intros H. change (all_chars xml_char (String c (String c' s)))
             with (xml_char c && all_chars xml_char (String c' s)) in H.
           apply andb_prop in H. destruct H as [Hc H].
           change (xml_char c && all_chars xml_char (line_ends (String c' s)) = true).
           now rewrite Hc, (Hc2 H).
Qed.

Lemma line_ends_no_cr s : all_chars (fun c => negb (Ascii.eqb c "013"%char)) s = true ->
  line_ends s = s.
Proof.
  induction s as [|c s IH]; simpl; auto.
  intros H. apply andb_prop in H. destruct H as [Hc Hs].
  apply negb_true_iff in Hc. rewrite Hc. now rewrite IH.
Qed.

Lemma line_ends_idem s : line_ends (line_ends s) = line_ends s.
Proof. apply line_ends_no_cr. apply (line_ends_facts s). Qed.

Lemma read_text_idem x : read_text (read_text x) = read_text x.
Proof.
  destruct x as [s|]; simpl; auto.
  destruct (String.eqb s "") eqn:E; simpl; auto.
  destruct (String.eqb (line_ends s) "") eqn:E'.
  - apply String.eqb_eq in E'. apply (line_ends_facts s) in E'.
    subst s. discriminate.
  - now rewrite line_ends_idem.
Qed.

Lemma read_text_xml x :
  opt_text xml_text x = true -> opt_text xml_text (read_text x) = true.
Proof.
  destruct x as [s|]; simpl; auto.
  destruct (String.eqb s ""); simpl; auto. apply (line_ends_facts s).
Qed.

Lemma as_read_idem e : as_read (as_read e) = as_read e.
Proof.
  induction e as [t a x tl cs IH] using element_induction. simpl.
  rewrite !read_text_idem. f_equal. rewrite map_map.
  apply map_ext_Forall. exact IH.
Qed.

Lemma well_formed_as_read e : well_formed e = true -> well_formed (as_read e) = true.
Proof.
  induction e as [t a x tl cs IH] using element_induction. simpl.
  intros H. apply andb_prop in H. destruct H as [H Hcs].
  apply andb_prop in H. destruct H as [H Htl].
  apply andb_prop in H. destruct H as [Ha Hx].
  rewrite Ha, (read_text_xml _ Hx), (read_text_xml _ Htl). simpl.
  rewrite forallb_forall in *. intros c Hc. apply in_map_iff in Hc.
  destruct Hc as (c0 & <- & Hc0). rewrite Forall_forall in IH. auto.
Qed.

Lemma as_read_stable_children d :
  as_read d = d ->
  Forall (fun c => as_read c = c) (children_of d).
Proof.
  destruct d as [t a x tl cs]. simpl. intros [= _ _ H]. now apply map_fixed.
Qed.

Lemma tag_of_as_read c : tag_of (as_read c) = tag_of c.
Proof. now destruct c. Qed.

Lemma text_of_as_read c : text_of (as_read c) = read_text (text_of c).
Proof. now destruct c. Qed.

Lemma find_map_as_read t cs :
  List.find (has_tag t) (map as_read cs) = option_map as_read (List.find (has_tag t) cs).
Proof.
  induction cs as [|c cs IH]; simpl; auto.
  unfold has_tag in *. rewrite tag_of_as_read.
  destruct (String.eqb (tag_of c) t); auto.
Qed.

Lemma line_ends_eq_plain s k :
  all_chars plain_char k = true -> line_ends s = k -> s = k.
Proof.
  revert k. induction s as [|c s IH]; intros k Hk; [auto|].
  rewrite line_ends_cons. destruct (Ascii.eqb c "013"%char) eqn:E.
  - intros H. exfalso.
    assert (Hlf : exists k', k = String "010"%char k').
    { destruct s as [|c' s']; [eauto|].
      destruct (Ascii.eqb c' "010"%char); eauto. }
    destruct Hlf as [k' ->]. simpl in Hk. discriminate Hk.
  - intros <-. simpl in Hk. apply andb_prop in Hk. destruct Hk as [_ Hk].
    f_equal. now apply IH.
Qed.

(** A plain name names the same properties before and after a write and a
    read. *)
Lemma is_named_as_read k c : plain k = true -> is_named k (as_read c) = is_named k c.
Proof.
  intros Hk. unfold is_named, name_matches, has_tag, find.
  rewrite tag_of_as_read. destruct (String.eqb (tag_of c) "property"); auto.
  simpl. destruct c as [t a x tl cs]. simpl.
  rewrite find_map_as_read.
  destruct (List.find (has_tag "name") cs) as [nm|]; simpl; auto.
  rewrite text_of_as_read. destruct (text_of nm) as [s|]; simpl; auto.
  unfold plain in Hk. apply andb_prop in Hk. destruct Hk as [Hne Hk].
  destruct (String.eqb s "") eqn:Es.
  - apply String.eqb_eq in Es. subst s. symmetry.
    rewrite String.eqb_sym. now apply negb_true_iff.
  - destruct (String.eqb s k) eqn:Esk.
    + apply String.eqb_eq in Esk. subst s. rewrite line_ends_plain by assumption.
      apply String.eqb_refl.
    + apply String.eqb_neq. intros H. apply line_ends_eq_plain in H; [|assumption].
      apply String.eqb_neq in Esk. contradiction.
Qed.

Lemma filter_is_named_as_read k cs :
  plain k = true ->
  filter (is_named k) (map as_read cs) = map as_read (filter (is_named k) cs).
Proof.
  intros Hk. induction cs as [|c cs IH]; simpl; auto.
  rewrite (is_named_as_read k c Hk). destruct (is_named k c); simpl; now rewrite IH.
Qed.

Lemma as_read_with_text c v :
  as_read (with_text (as_read (with_text c v)) v) = as_read (with_text c v).
Proof.
  destruct c as [t a x tl cs]. simpl.
  now rewrite read_text_idem, map_map, (map_ext _ _ as_read_idem).
Qed.

Lemma set_first_text_read t v1 v2 cs :
  map as_read (set_first_text t v2 (map as_read (set_first_text t v1 cs))) =
  map as_read (set_first_text t v2 cs).
Proof.
  induction cs as [|c cs IH]; simpl; auto.
  destruct (has_tag t c) eqn:Ht; simpl.
  - unfold has_tag in *. rewrite tag_of_as_read, tag_of_with_text, Ht. simpl.
    rewrite map_map, (map_ext _ _ as_read_idem). f_equal.
    destruct c as [t' a x tl ccs]. simpl.
    now rewrite read_text_idem, map_map, (map_ext _ _ as_read_idem).
  - unfold has_tag in *. rewrite tag_of_as_read, Ht. simpl.
    now rewrite as_read_idem, IH.
Qed.

Lemma set_first_text_last t v cs e :
  List.find (has_tag t) cs = None -> has_tag t e = true ->
  set_first_text t v (cs ++ [e]) = cs ++ [with_text e v].
Proof.
  intros Hcs He. induction cs as [|c cs IH]; simpl.
  - now rewrite He.
  - simpl in Hcs. destruct (has_tag t c); [discriminate|]. now rewrite IH.
Qed.

(** Setting the value anew after a write and a read gives what setting it
    directly gives. *)
Lemma set_value_read v1 v2 p :
  as_read (set_value v2 (as_read (set_value v1 p))) = as_read (set_value v2 p).
Proof.
  unfold set_value, find. destruct p as [t a x tl cs]. simpl.
  destruct (List.find (has_tag "value") cs) as [c|] eqn:E; simpl.
  - rewrite find_map_as_read, (find_set_first_text_same _ _ _ _ E). simpl.
    now rewrite !read_text_idem, set_first_text_read.
  - rewrite map_app, find_app, find_map_as_read, E. simpl.
    rewrite set_first_text_last; [|now rewrite find_map_as_read, E | reflexivity].
    simpl. rewrite !read_text_idem, !map_app, map_map, (map_ext _ _ as_read_idem).
    reflexivity.
Qed.

Lemma as_read_new_property k v :
  plain k = true ->
  as_read (new_property k v) =
  Element "property" [] None None
    [new_element "name" (Some k); Element "value" [] (read_text (Some v)) None []].
Proof.
  intros Hk. unfold new_property, new_element. cbn [as_read map].
  now rewrite (read_text_plain k Hk).
Qed.

(** Last write wins, on what the file holds: an upsert of [k] on the
    document read back after an upsert of [k] leaves the file that the
    second upsert alone would leave. *)
Lemma upsert_read_upsert d k v1 v2 :
  plain k = true ->
  as_read (upsert (as_read (upsert d k v1)) k v2) = as_read (upsert d k v2).
Proof.
  intros Hk. unfold upsert.
  pose proof (upsert_loop_spec k v1 (children_of d)) as H1.
  pose proof (upsert_loop_spec k v2 (children_of d)) as H2.
  destruct d as [t a x tl cs]. simpl in *.
  destruct (upsert_loop k v1 cs) as [cs1|].
  - destruct H1 as (l1 & p & l2 & -> & -> & Hp & Hl1). simpl.
    rewrite map_app. simpl.
    rewrite !upsert_loop_found; auto.
    + cbn [as_read]. rewrite !read_text_idem, !map_app. cbn [map].
      rewrite !map_map, !(map_ext _ _ as_read_idem), set_value_read.
      reflexivity.
    + now rewrite filter_is_named_as_read, Hl1.
    + now rewrite is_named_as_read, is_named_set_value.
  - destruct (upsert_loop k v2 cs) as [cs2|].
    + destruct H2 as (l1 & p & l2 & -> & _ & Hp & _).
      rewrite filter_app in H1. simpl in H1. rewrite Hp in H1.
      apply app_eq_nil in H1. destruct H1; discriminate.
    + cbn [append_child with_children children_of as_read].
      rewrite map_app. cbn [map].
      rewrite (upsert_loop_found k v2 (map as_read cs) (as_read (new_property k v1)) []).
      * rewrite (as_read_new_property k v1 Hk).
        cbn [with_children as_read set_value find children_of List.find has_tag
             tag_of new_element String.eqb Ascii.eqb Bool.eqb app set_first_text
             with_text map].
        rewrite !read_text_idem, !map_app, map_map, (map_ext _ _ as_read_idem).
        reflexivity.
      * now rewrite filter_is_named_as_read, H1.
      * rewrite is_named_as_read by assumption. apply is_named_new_property.
Qed.

Lemma set_first_text_stable t v cs :
  Forall (fun c => as_read c = c) cs -> read_text (Some v) = Some v ->
  map as_read (set_first_text t v cs) = set_first_text t v cs.
Proof.
  intros Hcs Hv. induction Hcs as [|c cs Hc Hcs IH]; simpl; auto.
  destruct (has_tag t c); simpl.
  - f_equal; [|now apply map_fixed].
    destruct c as [t' a x tl ccs]. cbn [as_read with_text] in *.
    injection Hc as _ Htl Hccs. now rewrite Hv, Htl, Hccs.
  - now rewrite Hc, IH.
Qed.

Lemma as_read_set_value_stable v p :
  as_read p = p -> read_text (Some v) = Some v ->
  as_read (set_value v p) = set_value v p.
Proof.
  intros Hp Hv. pose proof (as_read_stable_children p Hp) as Hcs.
  unfold set_value, find. destruct p as [t a x tl cs].
  cbn [as_read children_of] in *. injection Hp as Hx Htl Hmap.
  destruct (List.find (has_tag "value") cs); cbn [with_children append_child
    children_of as_read].
  - now rewrite Hx, Htl, set_first_text_stable.
  - rewrite Hx, Htl, map_app, Hmap. unfold new_element. cbn [map as_read].
    now rewrite Hv.
Qed.

(** A document that a write and a read leave as it is stays so under an
    upsert of a plain name and a plain value. *)
Lemma as_read_upsert_stable d k v :
  as_read d = d -> plain k = true -> plain v = true ->
  as_read (upsert d k v) = upsert d k v.
Proof.
  intros Hd Hk Hv. pose proof (as_read_stable_children d Hd) as Hcs.
  unfold upsert. pose proof (upsert_loop_spec k v (children_of d)) as H.
  destruct d as [t a x tl cs]. cbn [as_read children_of] in *.
  injection Hd as Hx Htl Hmap.
  destruct (upsert_loop k v cs) as [cs'|];
    cbn [with_children append_child children_of as_read]; rewrite Hx, Htl; f_equal.
  - destruct H as (l1 & p & l2 & -> & -> & Hp & Hl1).
    rewrite map_app in *. cbn [map] in *.
    apply Forall_app in Hcs. destruct Hcs as [H1 H2].
    inversion H2 as [|? ? Hp' H2']; subst.
    apply map_fixed in H1, H2'. rewrite H1, H2'.
    now rewrite as_read_set_value_stable by auto using read_text_plain.
  - rewrite map_app, Hmap. cbn [map].
    rewrite (as_read_new_property k v Hk). now rewrite (read_text_plain v Hv).
Qed.

(** *** Well-formed documents *)

Lemma well_formed_children t a x tl cs :
  well_formed (Element t a x tl cs) = true -> forallb well_formed cs = true.
Proof. cbn [well_formed]. intros H. now apply andb_prop in H. Qed.

Lemma well_formed_with_children t a x tl cs cs' :
  well_formed (Element t a x tl cs) = true -> forallb well_formed cs' = true ->
  well_formed (Element t a x tl cs') = true.
Proof.
  cbn [well_formed]. intros H Hcs'. apply andb_prop in H. destruct H as [H _].
  now rewrite H, Hcs'.
Qed.

Lemma well_formed_set_first_text t v cs :
  forallb well_formed cs = true -> xml_text v = true ->
  forallb well_formed (set_first_text t v cs) = true.
Proof.
  intros Hcs Hv. induction cs as [|c cs IH]; simpl; auto.
  simpl in Hcs. apply andb_prop in Hcs. destruct Hcs as [Hc Hcs].
  destruct (has_tag t c); simpl.
  - rewrite Hcs, andb_true_r. destruct c as [t' a x tl ccs].
    cbn [with_text well_formed opt_text] in *.
    apply andb_prop in Hc. destruct Hc as [Hc Hccs].
    apply andb_prop in Hc. destruct Hc as [Hc Htl].
    apply andb_prop in Hc. destruct Hc as [Ha _].
    now rewrite Ha, Hv, Htl, Hccs.
  - now rewrite Hc, IH.
Qed.

Lemma well_formed_set_value v p :
  well_formed p = true -> xml_text v = true -> well_formed (set_value v p) = true.
Proof.
  intros Hp Hv. unfold set_value, find. destruct p as [t a x tl cs].
  pose proof (well_formed_children _ _ _ _ _ Hp) as Hcs.
  destruct (List.find _ _); cbn [with_children append_child children_of];
    apply (well_formed_with_children _ _ _ _ _ _ Hp).
  - now apply well_formed_set_first_text.
  - rewrite forallb_app, Hcs. simpl. now rewrite Hv.
Qed.

Lemma well_formed_upsert d k v :
  well_formed d = true -> xml_text k = true -> xml_text v = true ->
  well_formed (upsert d k v) = true.
Proof.
  intros Hd Hk Hv. unfold upsert.
  pose proof (upsert_loop_spec k v (children_of d)) as H.
  destruct d as [t a x tl cs]. cbn [children_of] in *.
  pose proof (well_formed_children _ _ _ _ _ Hd) as Hcs.
  destruct (upsert_loop k v cs) as [cs'|]; cbn [with_children append_child children_of];
    apply (well_formed_with_children _ _ _ _ _ _ Hd).
  - destruct H as (l1 & p & l2 & -> & -> & _).
    rewrite forallb_app in *. simpl in *.
    apply andb_prop in Hcs. destruct Hcs as [H1 H2].
    apply andb_prop in H2. destruct H2 as [Hp H2].
    now rewrite H1, H2, well_formed_set_value.
  - rewrite forallb_app, Hcs. simpl. now rewrite Hk, Hv.
Qed.

Lemma tail_of_upsert d k v : tail_of (upsert d k v) = tail_of d.
Proof. unfold upsert. destruct (upsert_loop _ _ _); now destruct d. Qed.

Lemma tail_of_as_read d : tail_of (as_read d) = read_text (tail_of d).
Proof. now destruct d. Qed.

Lemma without_tail_None d : tail_of d = None -> without_tail d = d.
Proof. destruct d. simpl. now intros ->. Qed.

(** *** Reading a file and updating it *)

Lemma ET_parse_Ok path w doc w' :
  ET_parse path w = (Ok doc, w') ->
  w' = w /\ well_formed doc = true /\ tail_of doc = None.
Proof.
  unfold ET_parse. destruct (dict_get (fs w) path) as [[root|]|]; try discriminate.
  destruct (well_formed root && _) eqn:E; [|discriminate].
  intros [= <- <-]. apply andb_prop in E. destruct E as [E _].
  destruct root as [t a x tl cs]. cbn [without_tail well_formed tail_of opt_text] in *.
  split; [reflexivity|]. split; [|reflexivity].
  apply andb_prop in E. destruct E as [E Hcs].
  apply andb_prop in E. destruct E as [E _]. now rewrite E, Hcs.
Qed.

Lemma ET_parse_holds path w d :
  dict_get (fs w) path = Some (XmlFile d) ->
  well_formed d = true -> tail_of d = None ->
  ET_parse path w = (Ok d, w).
Proof.
  intros Hd Hwf Htl. unfold ET_parse. rewrite Hd, Hwf, Htl. simpl.
  now rewrite without_tail_None.
Qed.

Lemma update_writes path k v w doc :
  ET_parse path w = (Ok doc, w) ->
  existsb (String.eqb path) (read_only w) = false ->
  update_hdfs_site_property path k v w = (Ok tt, written w path (upsert doc k v)).
Proof.
  intros Hdoc Hro. unfold update_hdfs_site_property, io_bind, tree_write.
  now rewrite Hdoc, Hro.
Qed.



(** What [ET.parse] reads after an upsert of XML text. *)
Lemma parse_after_update path k v w doc :
  ET_parse path w = (Ok doc, w) -> xml_text k = true -> xml_text v = true ->
  ET_parse path (written w path (upsert doc k v)) =
  (Ok (as_read (upsert doc k v)), written w path (upsert doc k v)).
Proof.
  intros Hdoc Hk Hv. destruct (ET_parse_Ok _ _ _ _ Hdoc) as (_ & Hwf & Htl).
  apply ET_parse_holds.
  - cbn [written fs]. apply dict_get_set_same.
  - apply well_formed_as_read. now apply well_formed_upsert.
  - now rewrite tail_of_as_read, tail_of_upsert, Htl.
Qed.

Lemma set_value_frame v p :
  tag_of (set_value v p) = tag_of p /\
  attrib_tail_of (set_value v p) = attrib_tail_of p /\
  filter (fun c => negb (has_tag "value" c)) (children_of (set_value v p)) =
  filter (fun c => negb (has_tag "value" c)) (children_of p).
Proof.
  split; [apply tag_of_set_value|].
  unfold set_value, find. destruct p as [t a x tl cs]. simpl.
  destruct (List.find (has_tag "value") cs) eqn:E; simpl; split; auto.
  - clear E. induction cs as [|c cs IH]; simpl; auto.
    destruct (has_tag "value" c) eqn:Hc; simpl.
    + unfold has_tag in *. now rewrite tag_of_with_text, Hc.
    + now rewrite Hc, IH.
  - rewrite filter_app. simpl. apply app_nil_r.
Qed.

(** Two upserts of [k] in a row, on a file that can be read and written. *)
Lemma update_twice_writes path k v1 v2 w doc :
  ET_parse path w = (Ok doc, w) ->
  existsb (String.eqb path) (read_only w) = false ->
  plain k = true -> xml_text v1 = true ->
  update_twice path k v1 v2 w =
  (Ok tt,
   World (dict_set (fs w) path (XmlFile (as_read (upsert doc k v2))))
         (read_only w) (exit_of w) (log w ++ [Wrote path; Wrote path])).
Proof.
  intros Hdoc Hro Hk Hv1. unfold update_twice, io_bind.
  rewrite (update_writes path k v1 w doc Hdoc Hro).
  rewrite (update_writes path k v2 _ (as_read (upsert doc k v1))).
  - unfold written. cbn [fs read_only exit_of log].
    rewrite dict_set_twice, upsert_read_upsert by assumption.
    now rewrite <- app_assoc.
  - apply parse_after_update; auto using plain_xml_text.
  - exact Hro.
Qed.

(** ** The property upserter on a file: the properties of the specification *)




(** ** More facts about the upserter *)

Lemma is_named_two_names k k' c :
  k <> k' -> is_named k c = true -> is_named k' c = false.
Proof.
  unfold is_named, name_matches. intros Hne.
  destruct (has_tag "property" c); simpl; auto.
  destruct (find "name" c) as [nm|]; auto.
  destruct (text_of nm) as [s|]; auto.
  intros H. apply String.eqb_eq in H. subst s. now apply String.eqb_neq.
Qed.

Lemma properties_named_other doc k k' v :
  k <> k' -> properties_named k' (upsert doc k v) = properties_named k' doc.
Proof.
  intros Hne. unfold properties_named, upsert.
  pose proof (upsert_loop_spec k v (children_of doc)) as H.
  destruct doc as [t a x tl cs]. simpl in *.
  destruct (upsert_loop k v cs) as [cs'|].
  - destruct H as (l1 & p & l2 & -> & -> & Hp & _). simpl.
    rewrite !filter_app. simpl. rewrite is_named_set_value.
    now rewrite (is_named_two_names k k' p Hne Hp).
  - simpl. rewrite filter_app. simpl.
    rewrite (is_named_two_names k k' _ Hne (is_named_new_property k v)).
    apply app_nil_r.
Qed.

(** ** More facts about reading back *)

Lemma value_of_as_read p : value_of (as_read p) = read_text (value_of p).
Proof.
  unfold value_of, find. destruct p as [t a x tl cs]. cbn [as_read children_of].
  rewrite find_map_as_read. destruct (List.find _ cs) as [c|]; simpl; auto.
  apply text_of_as_read.
Qed.

(** The value of a plain name in a document that was written and read
    back. *)
Lemma property_value_as_read k d :
  plain k = true -> property_value k (as_read d) = read_text (property_value k d).
Proof.
  intros Hk. unfold property_value, properties_named.
  destruct d as [t a x tl cs]. cbn [as_read children_of].
  rewrite filter_is_named_as_read by assumption.
  destruct (filter (is_named k) cs); simpl; auto. apply value_of_as_read.
Qed.

Lemma property_value_upsert k v d : property_value k (upsert d k v) = Some v.
Proof.
  unfold property_value. destruct (upsert_spec d k v) as [-> _].
  destruct (properties_named k d);
    [apply value_of_new_property | apply value_of_set_value].
Qed.

Lemma property_value_upsert_other k k' v d :
  k <> k' -> property_value k' (upsert d k v) = property_value k' d.
Proof. intros Hne. unfold property_value. now rewrite properties_named_other. Qed.

(** ** Facts about the extractor *)

Section ExtractorFacts.

Variable int_of_str : string -> option Z.
Hypothesis int_of_str_empty : int_of_str "" = None.

Lemma fold_try_append body l : forall acc,
  fold_left (try_append body) l acc = acc ++ readable body l.
Proof.
  induction l as [|t l IH]; intros acc; simpl.
  - now rewrite app_nil_r.
  - rewrite IH. unfold try_append. destruct (body t); simpl; auto.
    now rewrite <- app_assoc.
Qed.

Lemma int_text_Ok a b z :
  int_text int_of_str (or_str a b) = Ok z <->
  exists s, first_nonempty [a; b] = Some s /\ int_of_str s = Some z.
Proof.
  unfold or_str, int_text. simpl.
  destruct (truthy a) eqn:Ha.
  - destruct a as [s|]; [|discriminate]. split.
    + destruct (int_of_str s) eqn:E; [|discriminate]. intros [= <-]. eauto.
    + intros (s' & [= <-] & ->). reflexivity.
  - destruct b as [s|]; simpl.
    + destruct (String.eqb s "") eqn:Hs; simpl.
      * apply String.eqb_eq in Hs. subst s. rewrite int_of_str_empty.
        split; [discriminate | intros (s' & H & _); discriminate].
      * split.
        -- destruct (int_of_str s) eqn:E; [|discriminate]. intros [= <-]. eauto.
        -- intros (s' & [= <-] & ->). reflexivity.
    + split; [discriminate | intros (s' & H & _); discriminate].
Qed.

Lemma int_text_or_0_Ok x z :
  int_text_or_0 int_of_str x = Ok z <->
  match first_nonempty [x] with
  | Some s => int_of_str s = Some z
  | None => z = 0
  end.
Proof.
  unfold int_text_or_0, int_text. simpl.
  destruct (truthy x) eqn:Hx.
  - destruct x as [s|]; [|discriminate].
    destruct (int_of_str s); split; congruence.
  - split; congruence.
Qed.

Lemma first_nonempty_or a b : first_nonempty [or_str a b] = first_nonempty [a; b].
Proof.
  unfold or_str. simpl. destruct (truthy a) eqn:Ha; simpl; now rewrite ?Ha.
Qed.

Lemma text_or_unknown_eq x :
  text_or_unknown x =
  match first_nonempty [x] with Some s => s | None => "unknown" end.
Proof.
  unfold text_or_unknown, or_str. simpl.
  destruct (truthy x) eqn:Hx; auto.
Qed.

End ExtractorFacts.

Lemma bind_Ok {A B : Type} (m : result A) (k : A -> result B) b :
  bind m k = Ok b <-> exists a, m = Ok a /\ k a = Ok b.
Proof.
  destruct m as [a|e]; simpl; split.
  - eauto.
  - now intros (a' & [= <-] & H).
  - discriminate.
  - intros (a' & H & _). discriminate.
Qed.

Example int_of_ascii_examples :
  int_of_ascii "1000" = Some 1000 /\ int_of_ascii " -42 " = Some (-42) /\
  int_of_ascii "1_000" = Some 1000 /\ int_of_ascii "" = None /\
  int_of_ascii "12ms" = None /\ int_of_ascii "1__0" = None /\
  int_of_ascii "0x10" = None /\ int_of_ascii "+ 5" = None.
Proof. repeat split; reflexivity. Qed.

(** ** The record extractor: the properties of the specification *)

Lemma map_shape_ignores_aliases :
  extract_records int_of_ascii aliased_map_history = [Entry "unknown" 0 0 0] /\
  extract_records_spec int_of_ascii aliased_map_history = [Entry "dn1" 5 9 7].
Proof. split; reflexivity. Qed.

(** C8, as the code has it.  The extraction reads the [taskAttempt] elements
    first, and the [map] elements if and only if no [taskAttempt] element gave
    a record; an element that cannot be read is left out and the elements
    after it are still read.  A [taskAttempt] element gives a record when the
    first non-empty text among [startTime], [start] and among [finishTime],
    [finish] are integers; its bytes are the first non-empty text among
    [hdfsBytesRead], [hdfs_bytes_read], or 0; its node the first non-empty text
    among [trackerName], [node], or "unknown".  A [map] element is read by
    the names [startTime], [finishTime], [hdfsBytesRead] and [trackerName]
    only, with 0, 0, 0 and "unknown" for a missing or empty field. *)
Theorem extraction_shapes (int_of_str : string -> option Z) (root : element) :
  int_of_str "" = None ->
  extract_records int_of_str root =
    match readable (task_attempt_record int_of_str) (findall_deep "taskAttempt" root) with
    | [] => readable (map_record int_of_str) (findall_deep "map" root)
    | r :: rs => r :: rs
    end /\
  (forall body l1 t l2 e acc,
      body t = Raise e ->
      fold_left (try_append body) (l1 ++ t :: l2) acc =
      fold_left (try_append body) (l1 ++ l2) acc) /\
  (forall t r,
      task_attempt_record int_of_str t = Ok r <->
      (exists s, first_nonempty [findtext "startTime" t; findtext "start" t] = Some s /\
                 int_of_str s = Some (start r)) /\
      (exists s, first_nonempty [findtext "finishTime" t; findtext "finish" t] = Some s /\
                 int_of_str s = Some (finish r)) /\
      match first_nonempty [findtext "hdfsBytesRead" t; findtext "hdfs_bytes_read" t] with
      | Some s => int_of_str s = Some (hdfs_bytes r)
      | None => hdfs_bytes r = 0
      end /\
      node r = match first_nonempty [findtext "trackerName" t; findtext "node" t] with
               | Some s => s
               | None => "unknown"
               end) /\
  (forall m r,
      map_record int_of_str m = Ok r <->
      match first_nonempty [findtext "startTime" m] with
      | Some s => int_of_str s = Some (start r)
      | None => start r = 0
      end /\
      match first_nonempty [findtext "finishTime" m] with
      | Some s => int_of_str s = Some (finish r)
      | None => finish r = 0
      end /\
      match first_nonempty [findtext "hdfsBytesRead" m] with
      | Some s => int_of_str s = Some (hdfs_bytes r)
      | None => hdfs_bytes r = 0
      end /\
      node r = match first_nonempty [findtext "trackerName" m] with
               | Some s => s
               | None => "unknown"
               end).
Proof.
  intros Hempty. split; [|split; [|split]].
  - unfold extract_records. rewrite fold_try_append. simpl.
    destruct (readable _ _) as [|r rs]; [|reflexivity].
    now rewrite fold_try_append.
  - intros body l1 t l2 e acc Ht. rewrite !fold_try_append.
    unfold readable. rewrite !flat_map_app. simpl. now rewrite Ht.
  - intros t [n s f b]. unfold task_attempt_record.
    cbn [start finish hdfs_bytes node].
    rewrite bind_Ok. setoid_rewrite bind_Ok. setoid_rewrite bind_Ok.
    rewrite text_or_unknown_eq, first_nonempty_or.
    split.
    + intros (s' & Hs & f' & Hf & b' & Hb & [= <- <- <- <-]).
      apply (int_text_Ok int_of_str Hempty) in Hs, Hf.
      apply int_text_or_0_Ok in Hb. rewrite first_nonempty_or in Hb. auto.
    + intros (Hs & Hf & Hb & ->).
      apply (int_text_Ok int_of_str Hempty) in Hs, Hf.
      rewrite <- first_nonempty_or in Hb. apply int_text_or_0_Ok in Hb.
      exists s. split; [assumption|]. exists f. split; [assumption|].
      exists b. split; [assumption|]. reflexivity.
  - intros m [n s f b]. unfold map_record.
    cbn [start finish hdfs_bytes node].
    rewrite bind_Ok. setoid_rewrite bind_Ok. setoid_rewrite bind_Ok.
    rewrite text_or_unknown_eq. split.
    + intros (s' & Hs & f' & Hf & b' & Hb & [= <- <- <- <-]).
      apply int_text_or_0_Ok in Hs, Hf, Hb. auto.
    + intros (Hs & Hf & Hb & ->).
      apply int_text_or_0_Ok in Hs, Hf, Hb.
      exists s. split; [assumption|]. exists f. split; [assumption|].
      exists b. split; [assumption|]. reflexivity.
Qed.

Lemma extraction_shapes_witness :
  extract_records int_of_ascii mixed_history = scenario.
Proof.
  exact (eq_trans (proj1 (extraction_shapes int_of_ascii mixed_history eq_refl))
                  eq_refl).
Defined.

(** ** Facts about the deployment sequence *)







(** ** The deployment sequence: the properties of the specification *)

(** A run in which the three first steps succeed and the reconfiguration
    command cannot be started: [check_call] raises [OSError], which the
    [except subprocess.CalledProcessError] clause does not catch.  The run
    ends with that exception, after the two writes, and prints nothing. *)
Lemma reconfig_failure_can_be_fatal :
  exit_of lost_world (publish_cmd demo_args) = None /\
  exit_of lost_world reconfig_cmd = Some OSError /\
  fst (main demo_args lost_world) = Raise OSError /\
  log (snd (main demo_args lost_world)) =
    [Ran (publish_cmd demo_args); Wrote (hdfs_site demo_args);
     Wrote (hdfs_site demo_args); Ran reconfig_cmd].
Proof. repeat split; reflexivity. Qed.




(** * Part IV: further properties of the two scripts *)

(** ** The weight computer *)

Section MoreWeightFacts.

Context {F : Type} {AF : Arith F}.

Lemma accumulate_filter entries : forall st : dict F * dict Z,
  for_each accumulate_step (filter (fun e => negb (skipped e)) entries) st =
  for_each accumulate_step entries st.
Proof.
  induction entries as [|e es IH]; intros [S N]; simpl; auto.
  destruct (skipped e) eqn:Hs; simpl.
  - apply IH.
  - rewrite Hs. destruct (ndt_of e); simpl; auto.
Qed.

(** X1. Skipped records have no influence at all: the function returns (or
    raises) on a list exactly what it does on the list without its skipped
    records. *)
Theorem skipped_records_ignored (entries : list entry) :
  compute_ndt_and_Ci (F:=F) (filter (fun e => negb (skipped e)) entries) =
  compute_ndt_and_Ci entries.
Proof.
  unfold compute_ndt_and_Ci, accumulate. now rewrite accumulate_filter.
Qed.

Lemma filter_not_in_app (ks : list string) (n : string) (l : list string) :
  filter (fun y => negb (existsb (String.eqb y) (ks ++ [n]))) l =
  filter (fun y => negb (existsb (String.eqb y) ks))
         (filter (fun y => negb (String.eqb n y)) l).
Proof.
  induction l as [|y l IH]; simpl; auto.
  rewrite existsb_app. simpl. rewrite orb_false_r, (String.eqb_sym n y).
  destruct (String.eqb y n); simpl.
  - rewrite orb_true_r. simpl. apply IH.
  - rewrite orb_false_r. destruct (existsb (String.eqb y) ks); simpl; now rewrite IH.
Qed.

Lemma filter_not_in_known (ks : list string) (n : string) (l : list string) :
  In n ks ->
  filter (fun y => negb (existsb (String.eqb y) ks))
         (filter (fun y => negb (String.eqb n y)) l) =
  filter (fun y => negb (existsb (String.eqb y) ks)) l.
Proof.
  intros Hin. induction l as [|y l IH]; simpl; auto.
  destruct (String.eqb n y) eqn:E; simpl.
  - apply String.eqb_eq in E. subst y.
    assert (Hex : existsb (String.eqb n) ks = true).
    { apply existsb_exists. exists n. split; auto. apply String.eqb_refl. }
    rewrite Hex. simpl. apply IH.
  - now rewrite IH.
Qed.

Lemma accumulate_keys entries : forall S0 N0 S N,
  for_each accumulate_step entries (S0, N0) = Ok (S, N) ->
  keys S = keys S0 ++
           filter (fun y => negb (existsb (String.eqb y) (keys S0)))
                  (observed_nodes entries).
Proof.
  unfold observed_nodes.
  induction entries as [|e es IH]; intros S0 N0 S N Hrun; simpl in *.
  - injection Hrun as <- <-. now rewrite app_nil_r.
  - destruct (skipped e) eqn:Hs; simpl in *.
    + eapply IH; eauto.
    + destruct (ndt_of e) as [x|]; simpl in Hrun; [|discriminate].
      apply IH in Hrun. rewrite Hrun. clear Hrun.
      destruct (in_dec string_dec (node e) (keys S0)) as [Hin|Hout].
      * rewrite keys_dict_set_old by assumption.
        assert (Hex : existsb (String.eqb (node e)) (keys S0) = true).
        { apply existsb_exists. exists (node e). split; auto. apply String.eqb_refl. }
        rewrite Hex. simpl. now rewrite filter_not_in_known.
      * rewrite keys_dict_set_new by assumption.
        assert (Hex : existsb (String.eqb (node e)) (keys S0) = false).
        { apply not_true_is_false. intros H. apply existsb_exists in H.
          destruct H as (y & Hy & E). apply String.eqb_eq in E. now subst. }
        rewrite Hex. simpl. rewrite <- app_assoc. simpl.
        now rewrite filter_not_in_app.
Qed.

(** X2. The two mappings list the nodes in the order in which the nodes
    first appear among the records that are not skipped, each node once. *)
Theorem output_in_order_of_first_appearance (entries : list entry) (C P : dict F) :
  compute_ndt_and_Ci entries = Ok (C, P) ->
  keys C = observed_nodes entries /\ keys P = observed_nodes entries.
Proof.
  intros Hrun.
  destruct (compute_spec _ _ _ Hrun) as (_ & HkP & _).
  assert (HkC : keys C = observed_nodes entries).
  { unfold compute_ndt_and_Ci in Hrun.
    destruct (accumulate entries) as [[S N]|] eqn:Hacc; simpl in Hrun; [|discriminate].
    destruct (averages S N) as [A|] eqn:HA; simpl in Hrun; [|discriminate].
    destruct (capacities A) as [C'|] eqn:HC; simpl in Hrun; [|discriminate].
    destruct (weights C') as [P'|] eqn:HP; simpl in Hrun; [|discriminate].
    injection Hrun as <- <-.
    destruct (accumulate_spec _ _ _ Hacc) as (_ & Hnd & _).
    pose proof (accumulate_keys _ _ _ _ _ Hacc) as Hkeys.
    assert (Hall : forall l : list string,
               filter (fun y => negb (existsb (String.eqb y) (@keys F []))) l = l).
    { induction l as [|a l IHl]; [reflexivity|].
      simpl. f_equal. exact IHl. }
    rewrite Hall in Hkeys. simpl in Hkeys.
    rewrite averages_eq in HA by assumption.
    apply build_lookup_keys in HA; [|assumption]. destruct HA as [HkA _].
    rewrite capacities_eq in HC by (now rewrite HkA).
    apply build_lookup in HC; [|fold (keys A); now rewrite HkA].
    destruct HC as [HkC _]. fold (keys A) in HkC. congruence. }
  split; congruence.
Qed.

(** X3. The first record that is not skipped and whose ndt cannot be
    computed ends the computation with its exception; no mapping is
    returned. *)
Theorem first_failing_record_raises (l1 l2 : list entry) (e : entry) (ex : exn) :
  (forall e', In e' l1 -> skipped e' = false -> exists x : F, ndt_of e' = Ok x) ->
  skipped e = false ->
  ndt_of (F:=F) e = Raise ex ->
  compute_ndt_and_Ci (F:=F) (l1 ++ e :: l2) = Raise ex.
Proof.
  intros Hl1 Hs He. unfold compute_ndt_and_Ci, accumulate.
  assert (Hacc : forall st : dict F * dict Z,
             for_each accumulate_step (l1 ++ e :: l2) st = Raise ex).
  { induction l1 as [|e' l1 IH]; intros [S N]; simpl.
    - now rewrite Hs, He.
    - destruct (skipped e') eqn:Hs'; simpl.
      + apply IH. intros e'' Hin. apply Hl1. now right.
      + destruct (Hl1 e' (or_introl eq_refl) Hs') as [x ->]. simpl.
        apply IH. intros e'' Hin. apply Hl1. now right. }
  now rewrite Hacc.
Qed.

End MoreWeightFacts.

Lemma first_failing_record_raises_witness :
  compute_ndt_and_Ci (F:=float)
    ([Entry "a" 0 1000 1000; Entry "b" 5 5 (10 ^ 400)]
       ++ Entry "c" 0 (10 ^ 400) 1 :: [Entry "d" 0 1000 1000]) =
  Raise OverflowError.
Proof.
  apply (first_failing_record_raises (F:=float)).
  - intros e' [<-|[<-|[]]] Hs.
    + eexists. vm_compute. reflexivity.
    + discriminate Hs.
  - reflexivity.
  - vm_compute. reflexivity.
Defined.

Lemma output_in_order_of_first_appearance_witness :
  keys [("b", 1000%float); ("a", 500%float)] = ["b"; "a"] /\
  keys [("b", (2 / 3)%float); ("a", (1 / 3)%float)] = ["b"; "a"].
Proof.
  assert (Hrun : compute_ndt_and_Ci (F:=float)
                   [Entry "a" 0 5 0; Entry "b" 1000 2000 1000;
                    Entry "a" 1000 3000 1000; Entry "b" 1000 2000 1000]
                 = Ok ([("b", 1000%float); ("a", 500%float)],
                       [("b", (2 / 3)%float); ("a", (1 / 3)%float)]))
    by (vm_compute; reflexivity).
  exact (output_in_order_of_first_appearance _ _ _ Hrun).
Defined.

(** *** The guards against division by zero, in binary64 *)

Lemma b64_pos_nonzero (x : float) :
  PrimFloat.ltb 0%float x = true -> PrimFloat.eqb x 0%float = false.
Proof.
  rewrite ltb_spec, eqb_spec.
  replace (Prim2SF 0%float) with (S754_zero false) by (vm_compute; reflexivity).
  destruct (Prim2SF x) as [[]|[]| |[] m e]; simpl; intros H;
    solve [discriminate H | reflexivity].
Qed.

Section GuardedDivisions.

(** Either version of the built-in [sum]. *)
Variable sum : list float -> float.

Let py : Arith float := {|
  lit0 := 0%float;
  lit1 := 1%float;
  lit1000 := 1000%float;
  float_of_int := b64_of_int;
  fadd := PrimFloat.add;
  fsum := sum;
  fdiv := b64_div;
  fgt0 := fun x => PrimFloat.ltb 0%float x
|}.

Lemma capacity_of_returns (a : float) :
  exists c, capacity_of (AF:=py) a = Ok c.
Proof.
  unfold capacity_of. cbn [fgt0 fdiv lit1 lit0 py].
  destruct (PrimFloat.ltb 0%float a) eqn:Ha; [|eauto].
  unfold b64_div. rewrite (b64_pos_nonzero a Ha). eauto.
Qed.

Lemma capacities_loop_returns (A : dict float) : forall acc,
  exists C, for_each (capacity_step (AF:=py)) A acc = Ok C.
Proof.
  induction A as [|[n a] A IH]; intros acc; simpl; [eauto|].
  unfold capacity_step at 1. simpl.
  destruct (capacity_of_returns a) as [c ->]. simpl. apply IH.
Qed.

Lemma normalize_loop_returns (t : float) (C : dict float) :
  PrimFloat.ltb 0%float t = true ->
  forall acc, exists P, for_each (normalize_step (AF:=py) t) C acc = Ok P.
Proof.
  intros Ht. induction C as [|[n c] C IH]; intros acc; simpl; [eauto|].
  unfold normalize_step at 1. cbn [fdiv py snd fst]. unfold b64_div.
  rewrite (b64_pos_nonzero t Ht). simpl. apply IH.
Qed.

Lemma guarded_steps_return :
  (forall A : dict float, exists C, capacities (AF:=py) A = Ok C) /\
  (forall C : dict float,
      fgt0 (Arith:=py) (fsum (Arith:=py) (values C)) = true ->
      exists P, weights (AF:=py) C = Ok P).
Proof.
  split.
  - intros A. apply capacities_loop_returns.
  - intros C Ht. unfold weights. cbv zeta. rewrite Ht.
    now apply normalize_loop_returns.
Qed.

End GuardedDivisions.

(** X4. In binary64 the two guarded divisions never raise: whatever the
    averages, the capacity loop returns ([1.0 / avg_ndt] is computed only when
    [avg_ndt > 0]), and whenever the total capacity is positive the
    normalisation loop returns.  This holds with either version of [sum]. *)
Theorem guarded_divisions_never_raise :
  (forall A : dict float,
      (exists C, capacities (AF:=binary64) A = Ok C) /\
      (exists C, capacities (AF:=binary64_py312) A = Ok C)) /\
  (forall C : dict float,
      (PrimFloat.ltb 0%float (b64_sum (values C)) = true ->
       exists P, weights (AF:=binary64) C = Ok P) /\
      (PrimFloat.ltb 0%float (b64_sum_compensated (values C)) = true ->
       exists P, weights (AF:=binary64_py312) C = Ok P)).
Proof.
  split.
  - intros A. split.
    + apply (proj1 (guarded_steps_return b64_sum)).
    + apply (proj1 (guarded_steps_return b64_sum_compensated)).
  - intros C. split; intros Ht.
    + apply (proj2 (guarded_steps_return b64_sum)). exact Ht.
    + apply (proj2 (guarded_steps_return b64_sum_compensated)). exact Ht.
Qed.

Lemma guarded_divisions_never_raise_witness :
  exists P, weights (AF:=binary64) [("n1", 1000%float); ("n2", infinity)] = Ok P.
Proof.
  apply (proj1 (proj2 guarded_divisions_never_raise
                  [("n1", 1000%float); ("n2", infinity)])).
  vm_compute. reflexivity.
Defined.

(** ** The property upserter *)

(** X7. Last write wins, on the file: for a plain name [k] and a first
    value of XML characters, two updates of [k] in a row end as the second
    update alone would, with the same result or exception and the same
    files; when the file can be read and written, it then holds the document
    upserted with the second value, as read back. *)
Theorem update_last_write_wins (path k v1 v2 : string) (w : world) :
  plain k = true -> xml_text v1 = true ->
  fst (update_twice path k v1 v2 w) = fst (update_hdfs_site_property path k v2 w) /\
  fs (snd (update_twice path k v1 v2 w)) =
    fs (snd (update_hdfs_site_property path k v2 w)) /\
  (forall doc,
      ET_parse path w = (Ok doc, w) ->
      existsb (String.eqb path) (read_only w) = false ->
      fst (update_twice path k v1 v2 w) = Ok tt /\
      dict_get (fs (snd (update_twice path k v1 v2 w))) path =
        Some (XmlFile (as_read (upsert doc k v2)))).
Proof.
  intros Hk Hv1.
  destruct (ET_parse path w) as [[doc|e] w0] eqn:Hparse.
  - destruct (ET_parse_Ok _ _ _ _ Hparse) as (-> & _).
    destruct (existsb (String.eqb path) (read_only w)) eqn:Hro.
    + assert (Hraise : forall v, update_hdfs_site_property path k v w = (Raise OSError, w)).
      { intros v. unfold update_hdfs_site_property, io_bind, tree_write.
        now rewrite Hparse, Hro. }
      unfold update_twice, io_bind. rewrite !Hraise.
      split; [reflexivity|]. split; [reflexivity|]. intros doc' _ H. discriminate H.
    + rewrite (update_twice_writes path k v1 v2 w doc) by assumption.
      rewrite (update_writes path k v2 w doc) by assumption.
      split; [reflexivity|]. split; [reflexivity|].
      intros doc' H _. injection H as <-. cbn [fst snd fs].
      split; [reflexivity | apply dict_get_set_same].
  - assert (Hraise : forall v, update_hdfs_site_property path k v w = (Raise e, w0)).
    { intros v. unfold update_hdfs_site_property, io_bind. now rewrite Hparse. }
    unfold update_twice, io_bind. rewrite !Hraise.
    split; [reflexivity|]. split; [reflexivity|]. intros doc' H. discriminate H.
Qed.

Lemma update_last_write_wins_witness :
  fst (update_twice site_path "k" "v1" "v2" (site_world site_dup)) = Ok tt /\
  dict_get (fs (snd (update_twice site_path "k" "v1" "v2" (site_world site_dup))))
           site_path =
    Some (XmlFile (Element "configuration" [] None None
                     [new_property "k" "v2"; new_property "k" "b"])).
Proof.
  apply (proj2 (proj2 (update_last_write_wins site_path "k" "v1" "v2"
                         (site_world site_dup) eq_refl eq_refl)) site_dup);
    reflexivity.
Defined.

(** X8. Reading back what was upserted: after [upsert doc k v] the value of
    property [k] is [v], and the value of every other property name is what
    it was. *)
Theorem upsert_then_lookup (doc : element) (k v : string) :
  property_value k (upsert doc k v) = Some v /\
  forall k', k <> k' ->
    property_value k' (upsert doc k v) = property_value k' doc.
Proof.
  split.
  - unfold property_value. destruct (upsert_spec doc k v) as [-> _].
    destruct (properties_named k doc).
    + apply value_of_new_property.
    + apply value_of_set_value.
  - intros k' Hne. unfold property_value. now rewrite properties_named_other.
Qed.

Lemma upsert_then_lookup_witness :
  property_value "k" (upsert site_one "k" "v") = Some "v" /\
  property_value "dfs.replication" (upsert site_one "k" "v") =
    property_value "dfs.replication" site_one.
Proof.
  destruct (upsert_then_lookup site_one "k" "v") as [Hk Hother].
  split; [exact Hk|]. apply Hother. discriminate.
Defined.

(** X9. When the document has a property named [k], the upsert rewrites the
    first such property where it stands: the children before and after it
    are untouched, and the property keeps its tag, attributes, text, tail and
    every child that is not a [value] element. *)
Theorem upsert_in_place (doc : element) (k v : string) :
  properties_named k doc <> [] ->
  exists l1 p l2,
    children_of doc = l1 ++ p :: l2 /\
    properties_named k (with_children doc l1) = [] /\
    is_named k p = true /\
    children_of (upsert doc k v) = l1 ++ set_value v p :: l2 /\
    tag_of (set_value v p) = tag_of p /\
    attrib_tail_of (set_value v p) = attrib_tail_of p /\
    filter (fun c => negb (has_tag "value" c)) (children_of (set_value v p)) =
    filter (fun c => negb (has_tag "value" c)) (children_of p) /\
    value_of (set_value v p) = Some v.
Proof.
  intros Hne. unfold upsert.
  pose proof (upsert_loop_spec k v (children_of doc)) as H.
  destruct (upsert_loop k v (children_of doc)) as [cs'|].
  - destruct H as (l1 & p & l2 & Hcs & -> & Hp & Hl1).
    exists l1, p, l2. destruct (set_value_frame v p) as (Ht & Ha & Hc).
    repeat split; auto using value_of_set_value.
    + unfold properties_named. now destruct doc.
    + now destruct doc.
  - unfold properties_named in Hne. contradiction.
Qed.

Lemma upsert_in_place_witness :
  exists l1 p l2,
    children_of site_dup = l1 ++ p :: l2 /\
    properties_named "k" (with_children site_dup l1) = [] /\
    is_named "k" p = true /\
    children_of (upsert site_dup "k" "v") = l1 ++ set_value "v" p :: l2 /\
    tag_of (set_value "v" p) = tag_of p /\
    attrib_tail_of (set_value "v" p) = attrib_tail_of p /\
    filter (fun c => negb (has_tag "value" c)) (children_of (set_value "v" p)) =
    filter (fun c => negb (has_tag "value" c)) (children_of p) /\
    value_of (set_value "v" p) = Some "v".
Proof.
  apply (upsert_in_place site_dup "k" "v"). discriminate.
Defined.

(** X10. Reading the file after an update.  When the file can be read and
    written, [k] is plain and [v] consists of XML characters, the update
    returns and the file then reads as the upserted document written and
    read back: the value of property [k] is [v] when [v] is plain and is
    absent when [v] is empty; the value of every other plain name is the one
    it had, as a read reports it; a document that a write and a read leave as
    it is reads as [upsert doc k v] itself when [v] is plain.  One write is
    logged and no other file changes. *)
Theorem update_then_parse (path k v : string) (w : world) (doc : element) :
  ET_parse path w = (Ok doc, w) ->
  existsb (String.eqb path) (read_only w) = false ->
  plain k = true -> xml_text v = true ->
  exists w',
    update_hdfs_site_property path k v w = (Ok tt, w') /\
    ET_parse path w' = (Ok (as_read (upsert doc k v)), w') /\
    property_value k (as_read (upsert doc k v)) = read_text (Some v) /\
    (plain v = true -> property_value k (as_read (upsert doc k v)) = Some v) /\
    (v = "" -> property_value k (as_read (upsert doc k v)) = None) /\
    (forall k', plain k' = true -> k <> k' ->
        property_value k' (as_read (upsert doc k v)) =
        read_text (property_value k' doc)) /\
    (as_read doc = doc -> plain v = true ->
     as_read (upsert doc k v) = upsert doc k v) /\
    (forall path', path <> path' -> dict_get (fs w') path' = dict_get (fs w) path') /\
    log w' = log w ++ [Wrote path].
Proof.
  intros Hdoc Hro Hk Hv.
  exists (written w path (upsert doc k v)).
  split; [now apply update_writes|].
  split; [apply parse_after_update; auto using plain_xml_text|].
  assert (Hval : property_value k (as_read (upsert doc k v)) = read_text (Some v)).
  { now rewrite property_value_as_read, property_value_upsert. }
  split; [exact Hval|].
  split; [intros Hpv; now rewrite Hval, read_text_plain|].
  split; [intros ->; now rewrite Hval|].
  split.
  { intros k' Hk' Hne.
    now rewrite property_value_as_read, property_value_upsert_other. }
  split; [intros Hst Hpv; now apply as_read_upsert_stable|].
  split; [|reflexivity].
  intros path' Hne. cbn [written fs]. now apply dict_get_set_other.
Qed.

Lemma update_then_parse_witness :
  exists w',
    update_hdfs_site_property site_path "k" "" (site_world site_one) = (Ok tt, w') /\
    ET_parse site_path w' =
      (Ok (Element "configuration" [] None None
             [new_property "dfs.replication" "3";
              Element "property" [] None None
                [new_element "name" (Some "k"); Element "value" [] None None []]]),
       w') /\
    property_value "k" (as_read (upsert site_one "k" "")) = None.
Proof.
  destruct (update_then_parse site_path "k" "" (site_world site_one) site_one)
    as (w' & Hrun & Hread & _ & _ & Hnone & _); try reflexivity.
  exists w'. split; [exact Hrun|]. split; [exact Hread|]. now apply Hnone.
Defined.

(** ** The record extractor *)

Lemma text_or_unknown_nonempty x : text_or_unknown x <> "".
Proof.
  unfold text_or_unknown, or_str.
  destruct (truthy x) eqn:Hx; [|discriminate].
  destruct x as [s|]; [|discriminate]. simpl in Hx.
  intros ->. discriminate.
Qed.

Lemma readable_In body l r :
  In r (readable body l) -> exists t, In t l /\ body t = Ok r.
Proof.
  unfold readable. rewrite in_flat_map. intros (t & Ht & Hr).
  exists t. split; auto. destruct (body t); simpl in Hr; [|contradiction].
  destruct Hr as [->|[]]. reflexivity.
Qed.

Lemma extract_records_In int_of_str root r :
  In r (extract_records int_of_str root) ->
  exists t, task_attempt_record int_of_str t = Ok r \/ map_record int_of_str t = Ok r.
Proof.
  unfold extract_records. rewrite fold_try_append. simpl.
  destruct (readable _ _) as [|r0 rs] eqn:E.
  - rewrite fold_try_append. simpl. intros H.
    apply readable_In in H. destruct H as (t & _ & Ht). eauto.
  - intros H. rewrite <- E in H.
    apply readable_In in H. destruct H as (t & _ & Ht). eauto.
Qed.

(** X11. Every extracted record names a node: the node of a record is never
    the empty string (an element without a tracker name gives "unknown"). *)
Theorem extracted_node_never_empty (int_of_str : string -> option Z)
    (root : element) (r : entry) :
  In r (extract_records int_of_str root) -> node r <> "".
Proof.
  intros H. apply extract_records_In in H. destruct H as (t & [Ht|Ht]).
  - unfold task_attempt_record in Ht.
    apply bind_Ok in Ht. destruct Ht as (s & _ & Ht).
    apply bind_Ok in Ht. destruct Ht as (f & _ & Ht).
    apply bind_Ok in Ht. destruct Ht as (b & _ & [= <-]).
    apply text_or_unknown_nonempty.
  - unfold map_record in Ht.
    apply bind_Ok in Ht. destruct Ht as (s & _ & Ht).
    apply bind_Ok in Ht. destruct Ht as (f & _ & Ht).
    apply bind_Ok in Ht. destruct Ht as (b & _ & [= <-]).
    apply text_or_unknown_nonempty.
Qed.

Lemma extracted_node_never_empty_witness :
  node (Entry "unknown" 0 0 0) <> "".
Proof.
  apply (extracted_node_never_empty int_of_ascii aliased_map_history).
  left. reflexivity.
Defined.

(** X12. An element without a byte count gives a record of 0 bytes, which the
    weight computer skips: such an element never counts towards a weight. *)
Theorem record_without_bytes_is_skipped (int_of_str : string -> option Z)
    (t : element) (r : entry) :
  (task_attempt_record int_of_str t = Ok r /\
   first_nonempty [findtext "hdfsBytesRead" t; findtext "hdfs_bytes_read" t] = None)
  \/ (map_record int_of_str t = Ok r /\
      first_nonempty [findtext "hdfsBytesRead" t] = None) ->
  hdfs_bytes r = 0 /\ skipped r = true.
Proof.
  assert (Hskip : hdfs_bytes r = 0 -> hdfs_bytes r = 0 /\ skipped r = true).
  { intros H. split; [assumption|]. unfold skipped. now rewrite H. }
  intros [[Ht Hnone]|[Ht Hnone]]; apply Hskip.
  - unfold task_attempt_record in Ht.
    apply bind_Ok in Ht. destruct Ht as (s & _ & Ht).
    apply bind_Ok in Ht. destruct Ht as (f & _ & Ht).
    apply bind_Ok in Ht. destruct Ht as (b & Hb & [= <-]).
    apply int_text_or_0_Ok in Hb. rewrite first_nonempty_or, Hnone in Hb.
    exact Hb.
  - unfold map_record in Ht.
    apply bind_Ok in Ht. destruct Ht as (s & _ & Ht).
    apply bind_Ok in Ht. destruct Ht as (f & _ & Ht).
    apply bind_Ok in Ht. destruct Ht as (b & Hb & [= <-]).
    apply int_text_or_0_Ok in Hb. rewrite Hnone in Hb. exact Hb.
Qed.

Lemma record_without_bytes_is_skipped_witness :
  hdfs_bytes (Entry "n1" 1000 2000 0) = 0 /\ skipped (Entry "n1" 1000 2000 0) = true.
Proof.
  apply (record_without_bytes_is_skipped int_of_ascii task_without_bytes).
  left. split; reflexivity.
Defined.

(** ** The weight document writer and the agent that reads it *)

Section WriterFacts.

Context {F : Type} {AF : Arith F}.
Variable round6 : F -> F.
Variable str : F -> string.

Lemma weights_tree_children_from (node_C : dict F) (node_P : dict F) : forall root,
  fold_left (fun root item => append_child root (node_element round6 str node_C item))
            node_P root =
  with_children root
    (children_of root ++ map (node_element round6 str node_C) node_P).
Proof.
  induction node_P as [|item P IH]; intros root; simpl.
  - rewrite app_nil_r. now destruct root.
  - rewrite IH. destruct root as [t a x tl cs]. simpl.
    now rewrite <- app_assoc.
Qed.

(** The weight document has attributes only: a write and a read leave it
    as it is. *)
Lemma as_read_weights_tree (workload : string) (node_C node_P : dict F) :
  as_read (weights_tree round6 str workload node_C node_P) =
  weights_tree round6 str workload node_C node_P.
Proof.
  unfold weights_tree. rewrite weights_tree_children_from.
  cbn [with_children children_of app as_read read_text]. f_equal.
  rewrite map_map. apply map_ext. reflexivity.
Qed.

(** X13. The weight document has the root [anodeWeights] with the workload
    as attribute and, as children, one [node] element per item of [node_P],
    in the order of [node_P]: its name, its weight rounded to 6 decimals, and
    its capacity ([0.0] for a node that has none), as strings. *)
Theorem weights_tree_shape (workload : string) (node_C node_P : dict F) :
  weights_tree round6 str workload node_C node_P =
    Element "anodeWeights" [("workload", workload)] None None
            (map (node_element round6 str node_C) node_P) /\
  forall i n p,
    nth_error node_P i = Some (n, p) ->
    exists e,
      nth_error (children_of (weights_tree round6 str workload node_C node_P)) i
        = Some e /\
      tag_of e = "node" /\ get "name" e = Some n /\
      get "weight" e = Some (str (round6 p)) /\
      get "capacity" e =
        Some (str (match dict_get node_C n with Some c => c | None => lit0 end)).
Proof.
  assert (Hshape : weights_tree round6 str workload node_C node_P =
                   Element "anodeWeights" [("workload", workload)] None None
                           (map (node_element round6 str node_C) node_P)).
  { unfold weights_tree. now rewrite weights_tree_children_from. }
  split; [exact Hshape|].
  intros i n p Hi. rewrite Hshape. simpl.
  exists (node_element round6 str node_C (n, p)). split.
  - now apply map_nth_error.
  - repeat split.
Qed.

Lemma inline_pairs (node_C node_P : dict F) :
  flat_map pair_of (map (node_element round6 str node_C) node_P) =
  map (pair_string round6 str) (filter (pair_kept round6 str) node_P).
Proof.
  induction node_P as [|[n p] P IH]; simpl; auto.
  rewrite IH. unfold pair_of at 1. unfold get. simpl.
  unfold pair_kept at 2. simpl.
  destruct (String.eqb n ""); simpl; auto.
  destruct (String.eqb (str (round6 p)) ""); simpl; auto.
Qed.

(** X14. Round trip between the two scripts: the inline value the agent
    builds from the weight document is the comma-joined list of
    [name:weight] for the items of [node_P], in their order, with the weight
    as the writer wrote it; an item whose name or whose weight string is
    empty is left out. *)
Theorem inline_val_of_weights_tree (workload : string) (node_C node_P : dict F) :
  inline_val (weights_tree round6 str workload node_C node_P) =
  String.concat ","
    (map (pair_string round6 str) (filter (pair_kept round6 str) node_P)).
Proof.
  destruct (weights_tree_shape workload node_C node_P) as [-> _].
  unfold inline_val, findall. simpl.
  assert (Hall : forall l : list (string * F),
             filter (has_tag "node") (map (node_element round6 str node_C) l) =
             map (node_element round6 str node_C) l).
  { induction l as [|a l IHl]; simpl; [reflexivity|]. now rewrite IHl. }
  now rewrite Hall, inline_pairs.
Qed.

End WriterFacts.

Lemma weights_tree_shape_witness :
  exists e,
    nth_error (children_of (weights_tree (fun x : float => x) (fun _ => "0.5") "W"
                              [("a", 5%float)] [("a", 0.5%float); ("b", 0.5%float)]))
              1 = Some e /\
    tag_of e = "node" /\ get "name" e = Some "b" /\
    get "weight" e = Some "0.5" /\ get "capacity" e = Some "0.5".
Proof.
  exact (proj2 (weights_tree_shape (fun x : float => x) (fun _ => "0.5") "W"
                  [("a", 5%float)] [("a", 0.5%float); ("b", 0.5%float)])
               1%nat "b" 0.5%float eq_refl).
Defined.

(** ** The deployment sequence *)





(** ** Listing the history files *)

Lemma linebreak_is_space c : is_linebreak c = true -> is_space c = true.
Proof.
  destruct c as [[] [] [] [] [] [] [] []]; vm_compute; congruence.
Qed.

Lemma field_pieces_cons s : exists f fs, field_pieces s = f :: fs.
Proof.
  destruct s as [|c s]; simpl; [eauto|].
  destruct (is_space c); [eauto|].
  destruct (field_pieces s); eauto.
Qed.

Lemma field_pieces_no_space s :
  Forall (fun f => all_chars (fun c => negb (is_space c)) f = true) (field_pieces s).
Proof.
  induction s as [|c s IH]; simpl.
  - repeat constructor.
  - destruct (is_space c) eqn:Hc.
    + constructor; auto.
    + destruct (field_pieces s) as [|f fs].
      * repeat constructor. simpl. now rewrite Hc.
      * inversion IH; subst. constructor; auto. simpl. now rewrite Hc.
Qed.

Lemma py_split_pad pad s :
  all_chars is_space pad = true -> py_split (String.append pad s) = py_split s.
Proof.
  induction pad as [|c pad IH]; simpl; auto.
  intros H. apply andb_prop in H. destruct H as [Hc Hpad].
  unfold py_split in *. simpl. rewrite Hc. simpl. auto.
Qed.

Lemma field_pieces_field f s :
  all_chars (fun c => negb (is_space c)) f = true ->
  field_pieces (String.append f s) =
  String.append f (hd EmptyString (field_pieces s)) :: tl (field_pieces s).
Proof.
  induction f as [|c f IH]; simpl; intros H.
  - destruct (field_pieces_cons s) as (h & t & ->). reflexivity.
  - apply andb_prop in H. destruct H as [Hc Hf].
    apply negb_true_iff in Hc. rewrite Hc, IH by assumption. reflexivity.
Qed.

Lemma append_empty_r s : String.append s EmptyString = s.
Proof. induction s as [|c s IH]; simpl; congruence. Qed.

Lemma py_split_field f s :
  f <> EmptyString ->
  all_chars (fun c => negb (is_space c)) f = true ->
  hd EmptyString (field_pieces s) = EmptyString ->
  py_split (String.append f s) = f :: py_split s.
Proof.
  intros Hne Hf Hhd. unfold py_split. rewrite field_pieces_field by assumption.
  destruct (field_pieces_cons s) as (h & t & E). rewrite E in *. simpl in *.
  subst h. rewrite append_empty_r. simpl.
  destruct (String.eqb f "") eqn:Ef; [apply String.eqb_eq in Ef; contradiction|].
  reflexivity.
Qed.

Lemma py_split_lstrip s : py_split (lstrip s) = py_split s.
Proof.
  induction s as [|c s IH]; simpl; auto.
  destruct (is_space c) eqn:Hc; auto.
  rewrite IH. unfold py_split. simpl. now rewrite Hc.
Qed.

Lemma field_pieces_rstrip s :
  hd EmptyString (field_pieces (rstrip s)) = hd EmptyString (field_pieces s) /\
  filter (fun f => negb (String.eqb f "")) (tl (field_pieces (rstrip s))) =
  filter (fun f => negb (String.eqb f "")) (tl (field_pieces s)).
Proof.
  induction s as [|c s IH]; simpl; auto.
  destruct IH as [IHh IHt].
  destruct (field_pieces_cons s) as (h & t & E).
  destruct (field_pieces_cons (rstrip s)) as (h' & t' & E').
  rewrite E, E' in *. simpl in IHh, IHt. subst h'.
  destruct (rstrip s) as [|a r] eqn:Er.
  - simpl in E'. injection E' as <- <-. simpl in IHt.
    destruct (is_space c) eqn:Hc; simpl; rewrite ?Hc; simpl; auto.
  - assert (Hgoal :
      hd EmptyString (field_pieces (String c (String a r))) =
        hd EmptyString (if is_space c then EmptyString :: h :: t else String c h :: t) /\
      filter (fun f => negb (String.eqb f "")) (tl (field_pieces (String c (String a r)))) =
        filter (fun f => negb (String.eqb f ""))
               (tl (if is_space c then EmptyString :: h :: t else String c h :: t))).
    { change (field_pieces (String c (String a r)))
        with (if is_space c then EmptyString :: field_pieces (String a r)
              else match field_pieces (String a r) with
                   | f :: fs => String c f :: fs
                   | [] => [String c EmptyString]
                   end).
      rewrite E'. destruct (is_space c); simpl; auto.
      now rewrite IHt. }
    exact Hgoal.
Qed.

Lemma py_split_rstrip s : py_split (rstrip s) = py_split s.
Proof.
  unfold py_split. destruct (field_pieces_rstrip s) as [Hh Ht].
  destruct (field_pieces_cons s) as (h & t & E).
  destruct (field_pieces_cons (rstrip s)) as (h' & t' & E').
  rewrite E, E' in *. simpl in *. subst h'. now rewrite Ht.
Qed.

Lemma py_split_strip s : py_split (strip s) = py_split s.
Proof. unfold strip. now rewrite py_split_rstrip, py_split_lstrip. Qed.

Lemma py_split_fields s :
  Forall (fun f => f <> EmptyString /\
                   all_chars (fun c => negb (is_space c)) f = true) (py_split s).
Proof.
  unfold py_split. apply Forall_forall. intros f Hf.
  apply filter_In in Hf. destruct Hf as [Hin Hne]. split.
  - intros ->. discriminate.
  - pose proof (field_pieces_no_space s) as H.
    rewrite Forall_forall in H. auto.
Qed.

Lemma last_In {A : Type} (l : list A) d : l <> [] -> In (last l d) l.
Proof.
  induction l as [|a l IH]; [congruence|]. intros _.
  destruct l as [|b l]; [now left|]. right. apply IH. discriminate.
Qed.

(** X16. Every path [hdfs_ls] reports is a non-empty word without
    whitespace: the last whitespace-separated field of a line.  A file whose
    name contains a space is therefore never reported under its own name. *)
Theorem ls_files_are_words (out f : string) :
  In f (ls_files out) ->
  f <> EmptyString /\ all_chars (fun c => negb (is_space c)) f = true.
Proof.
  unfold ls_files. rewrite in_flat_map. intros (line & _ & Hf).
  unfold ls_line in Hf. cbv zeta in Hf.
  destruct (8 <=? length (py_split (strip line)))%nat eqn:E; [|contradiction].
  destruct Hf as [<-|[]].
  pose proof (py_split_fields (strip line)) as H. rewrite Forall_forall in H.
  apply H. apply last_In. intros Hnil. rewrite Hnil in E. discriminate.
Qed.

Lemma ls_files_are_words_witness :
  "report.xml" <> EmptyString /\
  all_chars (fun c => negb (is_space c)) "report.xml" = true.
Proof.
  apply (ls_files_are_words
           "-rw-r--r-- 3 hadoop supergroup 1234 2020-01-01 12:00 /history/WordCount report.xml").
  left. reflexivity.
Defined.

Lemma all_chars_append p s1 s2 :
  all_chars p (String.append s1 s2) = all_chars p s1 && all_chars p s2.
Proof.
  induction s1 as [|c s1 IH]; simpl; auto. now rewrite IH, andb_assoc.
Qed.

Lemma concat_empty_cons x l :
  String.concat "" (x :: l) = String.append x (String.concat "" l).
Proof.
  destruct l as [|y l]; simpl; [now rewrite append_empty_r | reflexivity].
Qed.

Lemma append_assoc s1 s2 s3 :
  String.append (String.append s1 s2) s3 = String.append s1 (String.append s2 s3).
Proof. induction s1 as [|c s1 IH]; simpl; congruence. Qed.

Lemma line_pieces_line l rest :
  all_chars (fun c => negb (is_linebreak c)) l = true ->
  line_pieces (String.append l (String "010" rest)) = l :: line_pieces rest.
Proof.
  induction l as [|c l IH]; intros H.
  - simpl. destruct rest; reflexivity.
  - simpl in H. apply andb_prop in H. destruct H as [Hc Hl].
    apply negb_true_iff in Hc.
    change (line_pieces (String.append (String c l) (String "010" rest)))
      with (line_pieces (String c (String.append l (String "010" rest)))).
    cbn [line_pieces]. rewrite Hc. now rewrite IH.
Qed.

Lemma splitlines_lines (ls : list string) :
  Forall (fun l => all_chars (fun c => negb (is_linebreak c)) l = true) ls ->
  splitlines (String.concat "" (map (fun l => String.append l (String "010" "")) ls))
  = ls.
Proof.
  intros Hls.
  assert (Hp : line_pieces
                 (String.concat "" (map (fun l => String.append l (String "010" "")) ls))
               = ls ++ [EmptyString]).
  { induction Hls as [|l ls Hl _ IH]; [reflexivity|].
    cbn [map]. rewrite concat_empty_cons, append_assoc. simpl String.append at 2.
    rewrite line_pieces_line by assumption. now rewrite IH. }
  unfold splitlines. rewrite Hp, rev_app_distr. simpl. apply rev_involutive.
Qed.

Lemma blank_is_space c : is_blank c = true -> is_space c = true.
Proof. unfold is_blank. intros H. now apply andb_prop in H. Qed.

Lemma render_row_padded row :
  forallb good_cell row = true ->
  forallb (fun cell => negb (String.eqb (fst cell) "")) row = true ->
  hd EmptyString (field_pieces (render_row row)) = EmptyString /\
  py_split (render_row row) = map snd row.
Proof.
  induction row as [|[pad f] row IH]; simpl; intros Hg Hp; [auto|].
  apply andb_prop in Hg. destruct Hg as [Hc Hg].
  apply andb_prop in Hp. destruct Hp as [Hpad Hp].
  destruct (IH Hg Hp) as [IHh IHs].
  unfold good_cell in Hc. simpl in Hc.
  apply andb_prop in Hc. destruct Hc as [Hc Hf].
  apply andb_prop in Hc. destruct Hc as [Hb Hne].
  apply negb_true_iff, String.eqb_neq in Hne.
  split.
  - destruct pad as [|c pad]; [discriminate|]. simpl in Hb |- *.
    apply andb_prop in Hb. destruct Hb as [Hc _].
    now rewrite (blank_is_space c Hc).
  - rewrite py_split_pad by (eapply all_chars_impl; [apply blank_is_space|assumption]).
    rewrite py_split_field by assumption. now rewrite IHs.
Qed.

Lemma render_row_fields row :
  good_row row = true -> py_split (render_row row) = map snd row.
Proof.
  unfold good_row. intros H. apply andb_prop in H. destruct H as [Hg Hp].
  destruct row as [|[pad f] row]; [reflexivity|]. simpl in *.
  apply andb_prop in Hg. destruct Hg as [Hc Hg].
  destruct (render_row_padded row Hg Hp) as [Hh Hs].
  unfold good_cell in Hc. simpl in Hc.
  apply andb_prop in Hc. destruct Hc as [Hc Hf].
  apply andb_prop in Hc. destruct Hc as [Hb Hne].
  apply negb_true_iff, String.eqb_neq in Hne.
  rewrite py_split_pad by (eapply all_chars_impl; [apply blank_is_space|assumption]).
  rewrite py_split_field by assumption. now rewrite Hs.
Qed.

Lemma render_row_one_line row :
  forallb good_cell row = true ->
  all_chars (fun c => negb (is_linebreak c)) (render_row row) = true.
Proof.
  induction row as [|[pad f] row IH]; simpl; intros Hg; [reflexivity|].
  apply andb_prop in Hg. destruct Hg as [Hc Hg].
  unfold good_cell in Hc. simpl in Hc.
  apply andb_prop in Hc. destruct Hc as [Hc Hf].
  apply andb_prop in Hc. destruct Hc as [Hb _].
  assert (Hpad : all_chars (fun c => negb (is_linebreak c)) pad = true).
  { apply (all_chars_impl is_blank); [|assumption].
    intros c H. unfold is_blank in H. now apply andb_prop in H. }
  assert (Hfield : all_chars (fun c => negb (is_linebreak c)) f = true).
  { apply (all_chars_impl (fun c => negb (is_space c))); [|assumption].
    intros c H. apply negb_true_iff in H. apply negb_true_iff.
    destruct (is_linebreak c) eqn:E; auto.
    apply linebreak_is_space in E. congruence. }
  rewrite !all_chars_append, Hpad, Hfield, IH by assumption. reflexivity.
Qed.

Lemma last_map {A B : Type} (g : A -> B) (l : list A) d :
  last (map g l) (g d) = g (last l d).
Proof.
  induction l as [|a l IH]; [reflexivity|].
  destruct l as [|b l]; [reflexivity|]. exact IH.
Qed.

Lemma flat_map_ext_in_rows (rows : list (list (string * string))) :
  forallb good_row rows = true ->
  flat_map (fun row => ls_line (render_row row)) rows =
  flat_map (fun row => if (8 <=? length row)%nat
                       then [snd (last row (EmptyString, EmptyString))]
                       else [])
           rows.
Proof.
  induction rows as [|row rows IH]; [reflexivity|].
  cbn [flat_map forallb].
  intros H. apply andb_prop in H. destruct H as [Hrow Hrows].
  rewrite IH by assumption. f_equal.
  unfold ls_line. cbv zeta.
  rewrite py_split_strip, render_row_fields by assumption.
  rewrite length_map.
  destruct (8 <=? length row)%nat; [|reflexivity].
  f_equal. apply (last_map snd row (EmptyString, EmptyString)).
Qed.

(** X17. On a listing whose lines end in a newline and consist of fields
    without whitespace, separated by blanks or tabs, [hdfs_ls] reports the
    last field of every line of at least eight fields, in the order of the
    listing, and nothing for a shorter line (such as "Found 2 items"). *)
Theorem ls_files_of_listing (rows : list (list (string * string))) :
  forallb good_row rows = true ->
  ls_files (render_listing rows) =
  flat_map (fun row => if (8 <=? length row)%nat
                       then [snd (last row (EmptyString, EmptyString))]
                       else [])
           rows.
Proof.
  intros Hrows. unfold ls_files, render_listing.
  rewrite <- (map_map render_row (fun l => String.append l (String "010" ""))).
  rewrite splitlines_lines.
  - rewrite flat_map_concat_map, map_map, <- flat_map_concat_map.
    apply flat_map_ext_in_rows. exact Hrows.
  - apply Forall_forall. intros l Hl. apply in_map_iff in Hl.
    destruct Hl as (row & <- & Hrow).
    rewrite forallb_forall in Hrows. specialize (Hrows row Hrow).
    unfold good_row in Hrows. apply andb_prop in Hrows.
    now apply render_row_one_line.
Qed.

Lemma ls_files_of_listing_witness :
  ls_files (render_listing demo_listing) =
  ["/user/hadoop/jobhistory/job_1_WordCount.xml"; "/user/hadoop/jobhistory/done"].
Proof. exact (ls_files_of_listing demo_listing eq_refl). Defined.

(** ** The weight computation run *)

Section ParserMainFacts.

Context {F : Type} {AF : Arith F}.
Variable round6 : F -> F.
Variable str : F -> string.
Variable int_of_str : string -> option Z.
Variable fromstring : string -> result element.
Variable stdout_of : list string -> result string.

Lemma collect_step entries f w :
  exists w',
    collect int_of_str fromstring stdout_of entries f w =
      (Ok (entries ++ records_of_file int_of_str fromstring stdout_of f), w') /\
    fs w' = fs w /\ read_only w' = read_only w /\
    exists evs, log w' = log w ++ evs /\ forall p, ~ In (Wrote p) evs.
Proof.
  unfold collect, read_history, hdfs_cat, check_output, io_bind, records_of_file.
  destruct (stdout_of (cat_cmd f)) as [content|e].
  - destruct (looks_like_xml content).
    + unfold io_lift, parse_history_xml.
      destruct (fromstring content) as [root|e]; simpl.
      * eexists. split; [reflexivity|]. repeat split.
        exists [Ran (cat_cmd f)]. split; [reflexivity|].
        intros p [H|[]]. discriminate.
      * eexists. split; [now rewrite app_nil_r|]. repeat split.
        exists [Ran (cat_cmd f); Printed (String.append "Failed to read " f) (Some e)].
        simpl. rewrite <- app_assoc. split; [reflexivity|].
        intros p [H|[H|[]]]; discriminate.
    + unfold io_ret. eexists. split; [now rewrite app_nil_r|]. repeat split.
      exists [Ran (cat_cmd f)]. split; [reflexivity|].
      intros p [H|[]]. discriminate.
  - eexists. split; [now rewrite app_nil_r|]. repeat split.
    exists [Ran (cat_cmd f); Printed (String.append "Failed to read " f) (Some e)].
    simpl. rewrite <- app_assoc. split; [reflexivity|].
    intros p [H|[H|[]]]; discriminate.
Qed.

(** The reading loop never raises and writes nothing: it gathers, in order,
    the records of the files that can be fetched and parsed. *)
Lemma collect_loop files : forall entries w,
  exists w',
    io_for_each (collect int_of_str fromstring stdout_of) files entries w =
      (Ok (entries ++ flat_map (records_of_file int_of_str fromstring stdout_of) files),
       w') /\
    fs w' = fs w /\ read_only w' = read_only w /\
    exists evs, log w' = log w ++ evs /\ forall p, ~ In (Wrote p) evs.
Proof.
  induction files as [|f files IH]; intros entries w.
  - exists w. simpl. unfold io_ret. rewrite app_nil_r. repeat split.
    exists []. rewrite app_nil_r. split; [reflexivity | intros p []].
  - destruct (collect_step entries f w) as (w1 & Hstep & Hfs1 & Hro1 & evs1 & Hlog1 & Hw1).
    destruct (IH (entries ++ records_of_file int_of_str fromstring stdout_of f) w1)
      as (w2 & Hloop & Hfs2 & Hro2 & evs2 & Hlog2 & Hw2).
    exists w2. cbn [io_for_each]. unfold io_bind at 1. rewrite Hstep, Hloop.
    cbn [flat_map]. rewrite <- app_assoc.
    split; [reflexivity|]. split; [congruence|]. split; [congruence|].
    exists (evs1 ++ evs2). split.
    + rewrite Hlog2, Hlog1. now rewrite app_assoc.
    + intros p Hin. apply in_app_or in Hin. destruct Hin; [eapply Hw1 | eapply Hw2]; eauto.
Qed.

(** X18. When the listing command fails, the run raises its exception and
    has done nothing else; when no listed file contains the workload name
    (compared in lower case), the run prints that there is no matching file
    and returns, with nothing read and nothing written. *)
Theorem parser_main_without_input (args : parser_arguments) (w : world) :
  (forall e,
      stdout_of (ls_cmd (hdfs_path args)) = Raise e ->
      parser_main round6 str int_of_str fromstring stdout_of args w =
      (Raise e, logged w [Ran (ls_cmd (hdfs_path args))])) /\
  (forall listing,
      stdout_of (ls_cmd (hdfs_path args)) = Ok listing ->
      matching_files args listing = [] ->
      parser_main round6 str int_of_str fromstring stdout_of args w =
      (Ok tt,
       logged w [Ran (ls_cmd (hdfs_path args));
                 Printed (String.append "No matching jobhistory files for workload: "
                                        (workload args)) None])).
Proof.
  split.
  - intros e He. unfold parser_main, hdfs_ls, check_output, io_bind.
    now rewrite He.
  - intros listing Hls Hnone.
    unfold parser_main, hdfs_ls, check_output, io_bind at 1 2, io_ret.
    rewrite Hls. unfold matching_files in Hnone. rewrite Hnone.
    unfold print, logged. simpl. now rewrite <- app_assoc.
Qed.

(** X19. When some listed file matches, the records are those of the
    matching files that can be fetched and parsed as XML, in the order of the
    listing: a file that cannot be fetched or parsed, or whose content does
    not start with "<", contributes none and does not stop the run.  If the
    weight computer raises on these records, the run raises the same
    exception and no file has been written. *)
Theorem parser_main_compute_raises (args : parser_arguments) (w : world)
    (listing : string) (ex : exn) :
  stdout_of (ls_cmd (hdfs_path args)) = Ok listing ->
  matching_files args listing <> [] ->
  compute_ndt_and_Ci (F:=F)
    (flat_map (records_of_file int_of_str fromstring stdout_of)
              (matching_files args listing)) = Raise ex ->
  exists w',
    parser_main round6 str int_of_str fromstring stdout_of args w = (Raise ex, w') /\
    fs w' = fs w /\
    exists evs, log w' = log w ++ evs /\ forall p, ~ In (Wrote p) evs.
Proof.
  intros Hls Hsome Hraise.
  unfold parser_main, hdfs_ls, check_output, io_bind at 1 2, io_ret.
  rewrite Hls. unfold matching_files in *.
  destruct (filter _ (ls_files listing)) as [|f files] eqn:Hm; [congruence|].
  destruct (collect_loop (f :: files) [] (logged w [Ran (ls_cmd (hdfs_path args))]))
    as (w1 & Hloop & Hfs & Hro & evs & Hlog & Hw).
  unfold io_bind at 1. rewrite Hloop. cbn [app].
  unfold io_bind at 1, io_lift. rewrite Hraise.
  exists w1. split; [reflexivity|]. split; [exact Hfs|].
  exists (Ran (ls_cmd (hdfs_path args)) :: evs). split.
  - rewrite Hlog. simpl. now rewrite <- app_assoc.
  - intros p [H|H]; [discriminate | eapply Hw; eauto].
Qed.

(** X20. When the weight computer returns on the gathered records and the
    output path can be written, the run returns normally: the output file
    holds the weight document of the two mappings, every other file is
    unchanged, and the last thing printed is "Wrote weights to" with the
    path. *)
Theorem parser_main_writes_artifact (args : parser_arguments) (w : world)
    (listing : string) (C P : dict F) :
  stdout_of (ls_cmd (hdfs_path args)) = Ok listing ->
  matching_files args listing <> [] ->
  compute_ndt_and_Ci
    (flat_map (records_of_file int_of_str fromstring stdout_of)
              (matching_files args listing)) = Ok (C, P) ->
  existsb (String.eqb (out args)) (read_only w) = false ->
  exists w',
    parser_main round6 str int_of_str fromstring stdout_of args w = (Ok tt, w') /\
    dict_get (fs w') (out args) =
      Some (XmlFile (weights_tree round6 str (workload args) C P)) /\
    (forall path, out args <> path -> dict_get (fs w') path = dict_get (fs w) path) /\
    exists evs,
      log w' = log w ++ evs ++
               [Wrote (out args);
                Printed (String.append "Wrote weights to " (out args)) None] /\
      forall p, ~ In (Wrote p) evs.
Proof.
  intros Hls Hsome Hrun Hro.
  unfold parser_main, hdfs_ls, check_output, io_bind at 1 2, io_ret.
  rewrite Hls. unfold matching_files in *.
  destruct (filter _ (ls_files listing)) as [|f files] eqn:Hm; [congruence|].
  destruct (collect_loop (f :: files) [] (logged w [Ran (ls_cmd (hdfs_path args))]))
    as (w1 & Hloop & Hfs & Hro1 & evs & Hlog & Hw).
  unfold io_bind at 1. rewrite Hloop. cbn [app].
  unfold io_bind at 1, io_lift. rewrite Hrun.
  unfold io_bind, write_weights_xml, tree_write, print. cbn [fst snd].
  rewrite Hro1. cbn [read_only logged]. rewrite Hro, as_read_weights_tree.
  eexists. split; [reflexivity|]. cbn [fs log logged].
  split; [rewrite Hfs; apply dict_get_set_same|].
  split; [intros path Hp; rewrite Hfs; now apply dict_get_set_other|].
  exists (Ran (ls_cmd (hdfs_path args)) :: evs). split.
  - rewrite Hlog. simpl. rewrite <- !app_assoc. reflexivity.
  - intros p [H|H]; [discriminate | eapply Hw; eauto].
Qed.

End ParserMainFacts.

Lemma parser_main_without_input_witness :
  parser_main (fun x : float => x) (fun _ => "0.5") int_of_ascii demo_fromstring
              (demo_stdout "<job>mixed</job>") (demo_parser_args "TeraSort")
              empty_world =
  (Ok tt,
   logged empty_world
     [Ran (ls_cmd "/user/hadoop/jobhistory");
      Printed "No matching jobhistory files for workload: TeraSort" None]).
Proof.
  apply (proj2 (parser_main_without_input (F:=float) (fun x : float => x)
                  (fun _ => "0.5") int_of_ascii demo_fromstring
                  (demo_stdout "<job>mixed</job>") (demo_parser_args "TeraSort")
                  empty_world)
           (render_listing demo_listing)); reflexivity.
Defined.

Lemma parser_main_compute_raises_witness :
  exists w',
    parser_main (fun x : float => x) (fun _ => "0.5") int_of_ascii demo_fromstring
                (demo_stdout "<job>endless</job>") (demo_parser_args "wordcount")
                empty_world = (Raise OverflowError, w') /\
    fs w' = fs empty_world /\
    exists evs, log w' = log empty_world ++ evs /\ forall p, ~ In (Wrote p) evs.
Proof.
  apply (parser_main_compute_raises (F:=float) (fun x : float => x)
           (fun _ => "0.5") int_of_ascii demo_fromstring
           (demo_stdout "<job>endless</job>") (demo_parser_args "wordcount")
           empty_world (render_listing demo_listing)).
  - reflexivity.
  - vm_compute. discriminate.
  - vm_compute. reflexivity.
Defined.

Lemma parser_main_writes_artifact_witness :
  exists w',
    parser_main (fun x : float => x) (fun _ => "0.5") int_of_ascii demo_fromstring
                (demo_stdout "<job>mixed</job>") (demo_parser_args "wordcount")
                empty_world = (Ok tt, w') /\
    dict_get (fs w') "/tmp/WordCount.xml" =
      Some (XmlFile (weights_tree (fun x : float => x) (fun _ => "0.5") "wordcount"
                       [("n1", 1000%float); ("n2", 500%float)]
                       [("n1", (2 / 3)%float); ("n2", (1 / 3)%float)])).
Proof.
  destruct (parser_main_writes_artifact (F:=float) (fun x : float => x)
              (fun _ => "0.5") int_of_ascii demo_fromstring
              (demo_stdout "<job>mixed</job>") (demo_parser_args "wordcount")
              empty_world (render_listing demo_listing)
              [("n1", 1000%float); ("n2", 500%float)]
              [("n1", (2 / 3)%float); ("n2", (1 / 3)%float)])
    as (w' & Hrun & Hfile & _).
  - reflexivity.
  - vm_compute. discriminate.
  - vm_compute. reflexivity.
  - reflexivity.
  - exists w'. split; [exact Hrun | exact Hfile].
Defined.
